(** * MaBoSS-client: the command-line front end of the MaBoSS server

    A shallow embedding of [main] of
    [engine/src/MaBoSS-client.cc] and the properties of the request it
    builds, the files it writes and the status it returns.

    [main] is sequential code with three kinds of effects: text on the
    two console streams, calls of helpers that live in other files of
    the engine ([checkArgMissing], [fileGetContents], [filePutContents],
    [Client::send]) and early [return]s.  It is embedded in a writer
    monad over a trace of events whose computations either go on with a
    value or halt with the outcome of the process. *)

From Stdlib Require Import String Ascii List ZArith Bool Lia.
From Stdlib Require Import DecimalString DecimalZ DecimalPos.
Import ListNotations.
Open Scope string_scope.
Open Scope list_scope.

(** ** Text *)

(** The line feed, [\n] in the source. *)
Definition nl : string := String "010"%char EmptyString.

(** [const char* prog = "MaBoSS-client";] *)
Definition prog : string := "MaBoSS-client".

(** [s.length() > 0] on a [std::string]. *)
Definition nonempty (s : string) : bool := (0 <? String.length s)%nat.

(** [opt[0] == '-'] *)
Definition is_option (opt : string) : bool :=
  match opt with
  | String "-"%char _ => true
  | _ => false
  end.

(** [operator<<] on an [int]: decimal digits, with a sign when negative. *)
Definition show_int (z : Z) : string := NilZero.string_of_int (Z.to_int z).

(** What [usage] writes on its stream. *)
Definition usage_text : string :=
  nl ++ "Usage:" ++ nl ++ nl ++
  "  " ++ prog ++ " [-h|--help]" ++ nl ++ nl ++
  "  " ++ prog ++ " [--version]" ++ nl ++ nl ++
  "  " ++ prog ++ " [--verbose]" ++ nl ++ nl ++
  "  " ++ prog ++ " --port PORT [--host HOST] [-c|--config CONF_FILE] [-v|--config-vars VAR1=NUMERIC[,VAR2=...]] [-e|--config-expr CONFIG_EXPR] -o|--output OUTPUT BOOLEAN_NETWORK_FILE" ++ nl ++
  "  " ++ prog ++ " [--check]" ++ nl ++
  "  " ++ prog ++ " [--override]" ++ nl ++
  "  " ++ prog ++ " [--augment]" ++ nl ++
  "  " ++ prog ++ " [--hexfloat" ++ nl ++ nl.

(** What [help] writes on [std::cout] after the usage. *)
Definition options_text : string :=
  nl ++ "Options:" ++ nl ++ nl ++
  "  --version                               : displays MaBoSS-client version" ++ nl ++
  "  --host HOST                             : reaches server on given host" ++ nl ++
  "  --port PORT                             : reaches server on given PORT (number or filename)" ++ nl ++
  "  -c --config CONF_FILE                   : uses CONF_FILE as a configuration file" ++ nl ++
  "  -v --config-vars VAR=NUMERIC[,VAR2=...] : sets the value of the given variables to the given numeric values" ++ nl ++
  "  -e --config-expr CONFIG_EXPR            : evaluates the configuration expression; may have multiple expressions" ++ nl ++
  "                                            separated by semi-colons" ++ nl ++
  "  --override                              : if set, a new node definition will override a previous one" ++ nl ++
  "  --augment                               : if set, a new node definition will complete (add non existing attributes) / override (replace existing attributes) a previous one" ++ nl ++
  "  -o --output OUTPUT                      : prefix to be used for output files; when present run MaBoSS simulation process" ++ nl ++
  "  --check                                 : checks network and configuration files and exits" ++ nl ++
  "  --hexfloat                              : displays double in hexadecimal format" ++ nl ++
  "  --verbose                               : verbose mode" ++ nl ++
  "  -h --help                               : displays this message" ++ nl ++
  nl ++ "Notices:" ++ nl ++
  nl ++ "1. --config and --config-expr options can be used multiple times;" ++ nl ++
  "   multiple --config and/or --config-expr options are managed in the order given at the command line;" ++ nl ++
  "   --config-vars VAR=VALUE always overrides any VAR assignment in a configuration file or expression" ++ nl ++
  nl.

(** The messages [main] builds on [std::cerr]. *)
Definition exclusive_msg : string :=
  nl ++ prog ++ ": --override and --augment are exclusive options" ++ nl.

Definition unknown_option_msg (opt : string) : string :=
  nl ++ prog ++ ": unknown option " ++ opt ++ nl.

Definition already_set_msg (ctbndl_file opt : string) : string :=
  nl ++ prog ++ ": boolean network file is already set to " ++ ctbndl_file
     ++ " [" ++ opt ++ "]" ++ nl.

Definition network_missing_msg : string :=
  nl ++ prog ++ ": boolean network file is missing" ++ nl.

Definition port_missing_msg : string :=
  nl ++ prog ++ ": port is missing" ++ nl.

Definition status_msg (errorMessage : string) (status : Z) : string :=
  prog ++ " error: [" ++ errorMessage ++ "] [status=" ++ show_int status ++ "]" ++ nl.

Definition version_text : string := "MaBoSS version <TBD>" ++ nl.

(** ** The request and the reply *)

(** Modelled from the spec: the class [ConfigOpt] (Utils.h) is not among
    the sources.  As [main] builds and reads it, it is the spec's tagged
    fragment before any file is read: the argument of a [--config] (a
    file name) or of a [--config-expr] (the expression) and which of the
    two it is. *)
Record ConfigOpt : Type := mkConfigOpt {
  file_or_expr : string;
  isExpr : bool
}.

Definition getExpr : ConfigOpt -> string := file_or_expr.
Definition getFile : ConfigOpt -> string := file_or_expr.

(** Modelled from the spec: the command selector of the spec, RUN or
    CHECK, for [DataStreamer::RUN_COMMAND] and
    [DataStreamer::CHECK_COMMAND] of DataStreamer.h, which is not among
    the sources. *)
Inductive Command : Type := RUN_COMMAND | CHECK_COMMAND.

(** Modelled from the spec: the class [ClientData] (Client.h) is not
    among the sources.  The spec gives it six operations, each a pure
    mutation without validation.  The object is kept as the calls made
    on it, oldest first, so that the order in which [main] fills it
    stays visible in the request handed to [Client::send]. *)
Inductive ClientCall : Type :=
  | setNetwork (network : string)
  | addConfig (config : string)
  | addConfigExpr (config_expr : string)
  | setConfigVars (config_vars : string)
  | setCommand (command : Command)
  | setFlags (flags : Z).

Definition ClientData : Type := list ClientCall.

(** [client_data.f(x)] *)
Definition call (client_data : ClientData) (c : ClientCall) : ClientData :=
  client_data ++ [c].

(** Modelled from the spec: the configuration fragment of the spec's
    data model, a tagged union of file contents and inline expression. *)
Inductive ConfigFragment : Type :=
  | FILE_CONTENTS (text : string)
  | EXPR (text : string).

(** Modelled from the spec: the Request Model of the spec's data model,
    the aggregate that the class [ClientData] holds. *)
Record RequestModel : Type := mkRequestModel {
  network : string;
  fragments : list ConfigFragment;
  variableOverrides : string;
  command : Command;
  flags : Z
}.

Definition empty_request : RequestModel :=
  {| network := ""; fragments := []; variableOverrides := "";
     command := RUN_COMMAND; flags := 0 |}.

(** Modelled from the spec: what each operation of the Request Model
    does to the aggregate. *)
Definition apply_call (r : RequestModel) (c : ClientCall) : RequestModel :=
  match c with
  | setNetwork text =>
      {| network := text; fragments := fragments r;
         variableOverrides := variableOverrides r;
         command := command r; flags := flags r |}
  | addConfig text =>
      {| network := network r;
         fragments := fragments r ++ [FILE_CONTENTS text];
         variableOverrides := variableOverrides r;
         command := command r; flags := flags r |}
  | addConfigExpr text =>
      {| network := network r;
         fragments := fragments r ++ [EXPR text];
         variableOverrides := variableOverrides r;
         command := command r; flags := flags r |}
  | setConfigVars text =>
      {| network := network r; fragments := fragments r;
         variableOverrides := text;
         command := command r; flags := flags r |}
  | setCommand c =>
      {| network := network r; fragments := fragments r;
         variableOverrides := variableOverrides r;
         command := c; flags := flags r |}
  | setFlags bits =>
      {| network := network r; fragments := fragments r;
         variableOverrides := variableOverrides r;
         command := command r; flags := bits |}
  end.

Definition request_model (client_data : ClientData) : RequestModel :=
  fold_left apply_call client_data empty_request.

(** Modelled from the spec: the class [ServerData] (Server.h) is not
    among the sources; it is the Reply Model of the spec, read through
    the accessors [main] calls.  The status is a C [int]. *)
Record ServerData : Type := mkServerData {
  getTraj : string;
  getRunLog : string;
  getProbTraj : string;
  getStatDist : string;
  getFP : string;
  getStatus : Z;
  getErrorMessage : string
}.

(** ** Effects *)

Inductive event : Type :=
  | Cout (text : string)
  | Cerr (text : string)
  (** [checkArgMissing] found no value after [opt] and said so *)
  | ArgMissing (opt : string)
  (** a call of [fileGetContents] *)
  | FileGet (file : string)
  (** [Client(host, port, verbose)] and its one [send] *)
  | Send (host port : string) (verbose : bool) (client_data : ClientData)
  (** a call of [filePutContents] *)
  | FilePut (file contents : string).

(** How the process ends: [main] returns a code, or it has built a
    [std::string] from a null pointer, after which C++ promises nothing. *)
Inductive outcome : Type :=
  | Exit (code : Z)
  | NullString.

Inductive step (A : Type) : Type :=
  | Go (a : A)
  | Halt (o : outcome).
Arguments Go {A} a.
Arguments Halt {A} o.

Definition M (A : Type) : Type := (list event * step A)%type.

Definition ret {A} (a : A) : M A := ([], Go a).

Definition bind {A B} (m : M A) (f : A -> M B) : M B :=
  match m with
  | (tr, Go a) => let '(tr', r) := f a in (tr ++ tr', r)
  | (tr, Halt o) => (tr, Halt o)
  end.

Notation "x <- m ;; k" := (bind m (fun x => k))
  (at level 61, m at next level, right associativity).
Notation "m ;; k" := (bind m (fun _ => k))
  (at level 61, right associativity).

Definition emit (e : event) : M unit := ([e], Go tt).

(** [return code;] in [main] *)
Definition return_ {A} (code : Z) : M A := ([], Halt (Exit code)).

(** [static int usage(std::ostream& os = std::cerr)], called as
    [return usage();] *)
Definition usage {A} : M A := emit (Cerr usage_text) ;; return_ 1.

(** [static int help()], called as [return help();] *)
Definition help {A} : M A :=
  emit (Cout usage_text) ;; emit (Cout options_text) ;; return_ 0.

(** ** The local variables of [main] that the option loop fills *)

Record locals : Type := mkLocals {
  output : option string;                      (* const char*, NULL at first *)
  runconfig_file_or_expr_v : list ConfigOpt;
  config_vars : string;
  ctbndl_file : option string;                 (* const char*, NULL at first *)
  port : string;
  host : string;
  verbose : bool;
  check : bool;
  override : bool;
  augment : bool;
  hexfloat : bool
}.

Definition initial : locals :=
  {| output := None; runconfig_file_or_expr_v := []; config_vars := "";
     ctbndl_file := None; port := ""; host := "";
     verbose := false; check := false; override := false;
     augment := false; hexfloat := false |}.

Definition set_output (v : string) (l : locals) : locals :=
  mkLocals (Some v) (runconfig_file_or_expr_v l) (config_vars l) (ctbndl_file l)
           (port l) (host l) (verbose l) (check l) (override l) (augment l) (hexfloat l).

Definition push_back (c : ConfigOpt) (l : locals) : locals :=
  mkLocals (output l) (runconfig_file_or_expr_v l ++ [c]) (config_vars l) (ctbndl_file l)
           (port l) (host l) (verbose l) (check l) (override l) (augment l) (hexfloat l).

(** [if (config_vars.length() > 0) config_vars += ","; config_vars += v;] *)
Definition add_config_vars (config_vars v : string) : string :=
  (if nonempty config_vars then config_vars ++ "," else config_vars) ++ v.

Definition append_config_vars (v : string) (l : locals) : locals :=
  mkLocals (output l) (runconfig_file_or_expr_v l)
           (add_config_vars (config_vars l) v)
           (ctbndl_file l)
           (port l) (host l) (verbose l) (check l) (override l) (augment l) (hexfloat l).

Definition set_ctbndl_file (v : string) (l : locals) : locals :=
  mkLocals (output l) (runconfig_file_or_expr_v l) (config_vars l) (Some v)
           (port l) (host l) (verbose l) (check l) (override l) (augment l) (hexfloat l).

Definition set_port (v : string) (l : locals) : locals :=
  mkLocals (output l) (runconfig_file_or_expr_v l) (config_vars l) (ctbndl_file l)
           v (host l) (verbose l) (check l) (override l) (augment l) (hexfloat l).

Definition set_host (v : string) (l : locals) : locals :=
  mkLocals (output l) (runconfig_file_or_expr_v l) (config_vars l) (ctbndl_file l)
           (port l) v (verbose l) (check l) (override l) (augment l) (hexfloat l).

Definition set_verbose (l : locals) : locals :=
  mkLocals (output l) (runconfig_file_or_expr_v l) (config_vars l) (ctbndl_file l)
           (port l) (host l) true (check l) (override l) (augment l) (hexfloat l).

Definition set_check (l : locals) : locals :=
  mkLocals (output l) (runconfig_file_or_expr_v l) (config_vars l) (ctbndl_file l)
           (port l) (host l) (verbose l) true (override l) (augment l) (hexfloat l).

Definition set_override (l : locals) : locals :=
  mkLocals (output l) (runconfig_file_or_expr_v l) (config_vars l) (ctbndl_file l)
           (port l) (host l) (verbose l) (check l) true (augment l) (hexfloat l).

Definition set_augment (l : locals) : locals :=
  mkLocals (output l) (runconfig_file_or_expr_v l) (config_vars l) (ctbndl_file l)
           (port l) (host l) (verbose l) (check l) (override l) true (hexfloat l).

Definition set_hexfloat (l : locals) : locals :=
  mkLocals (output l) (runconfig_file_or_expr_v l) (config_vars l) (ctbndl_file l)
           (port l) (host l) (verbose l) (check l) (override l) (augment l) true.

(** ** The option loop, lines 95-162

    [for (int nn = 1; nn < argc; ++nn)] over the words from [argv[nn]]
    on: [opt] is [argv[nn]] and [rest] the words after it.

    Modelled from the spec: [checkArgMissing] (Utils.h) is not among the
    sources, and the spec leaves the parsing of the command line to its
    caller.  By the usage message an option that takes a value is
    followed by it: [checkArgMissing(prog, opt, nn, argc)] answers
    non-zero, after a diagnostic of its own, exactly when [opt] is the
    last word, that is when [rest] is empty.  Otherwise [argv[++nn]] is
    the head of [rest] and the loop goes on after it. *)
Fixpoint parse_args (l : locals) (args : list string) {struct args} : M locals :=
  match args with
  | [] => ret l
  | opt :: rest =>
      let with_value (assign : string -> locals -> locals) : M locals :=
        match rest with
        | [] => emit (ArgMissing opt) ;; usage
        | value :: rest' => parse_args (assign value l) rest'
        end in
      if is_option opt then
        if (opt =? "-version") || (opt =? "--version") then
          emit (Cout version_text) ;; return_ 0
        else if opt =? "--host" then with_value set_host
        else if opt =? "--port" then with_value set_port
        else if opt =? "--config-vars" then with_value append_config_vars
        else if (opt =? "--config-expr") || (opt =? "-e") then
          with_value (fun v => push_back (mkConfigOpt v true))
        else if (opt =? "-o") || (opt =? "--output") then with_value set_output
        else if (opt =? "-c") || (opt =? "--config") then
          with_value (fun v => push_back (mkConfigOpt v false))
        else if opt =? "--verbose" then parse_args (set_verbose l) rest
        else if opt =? "--override" then
          if augment l then emit (Cerr exclusive_msg) ;; usage
          else parse_args (set_override l) rest
        else if opt =? "--augment" then
          if override l then emit (Cerr exclusive_msg) ;; usage
          else parse_args (set_augment l) rest
        else if opt =? "--check" then parse_args (set_check l) rest
        else if opt =? "--hexfloat" then parse_args (set_hexfloat l) rest
        else if (opt =? "--help") || (opt =? "-h") then help
        else emit (Cerr (unknown_option_msg opt)) ;; usage
      else
        match ctbndl_file l with
        | None => parse_args (set_ctbndl_file opt l) rest
        | Some file =>
            emit (Cerr (already_set_msg file opt)) ;; parse_args l rest
        end
  end.

Section Client.

(** The three flag bits of DataStreamer.h, which is not among the
    sources: they are parameters of the development. *)
Variables HEXFLOAT_FLAG OVERRIDE_FLAG AUGMENT_FLAG : Z.

(** [fileGetContents] (Utils.h) is not among the sources; it is the
    collaborator [readFile(path) -> text | IOError] of the spec.  The
    file system is a parameter: [None] where reading fails (the function
    answers non-zero), the contents otherwise. *)
Variable fileGetContents : string -> option string.

(** [Client::send] (Client.h) is not among the sources; it is the
    transport session of the spec, one exchange per run.  The server is
    a parameter: the reply left in [server_data] for the endpoint and
    the request handed over. *)
Variable Client_send : string -> string -> bool -> ClientData -> ServerData.

(** Lines 183-197: the [while] loop over [runconfig_file_or_expr_v]. *)
Fixpoint add_configs (client_data : ClientData) (v : list ConfigOpt)
  : M ClientData :=
  match v with
  | [] => ret client_data
  | cfg :: v' =>
      if isExpr cfg then
        add_configs (call client_data (addConfigExpr (getExpr cfg))) v'
      else
        emit (FileGet (getFile cfg)) ;;
        match fileGetContents (getFile cfg) with
        | None => return_ 1
        | Some contents =>
            add_configs (call client_data (addConfig contents)) v'
        end
  end.

(** Lines 202-211: the flags word; [|=] on [unsigned long long], which
    sets bits and cannot wrap around. *)
Definition flags_of (l : locals) : Z :=
  let flags := 0%Z in
  let flags := if hexfloat l then Z.lor flags HEXFLOAT_FLAG else flags in
  let flags := if override l then Z.lor flags OVERRIDE_FLAG else flags in
  let flags := if augment l then Z.lor flags AUGMENT_FLAG else flags in
  flags.

(** One of the five blocks of lines 218-232:
    [if (blob.length() > 0) filePutContents(std::string(output) + suffix, blob);] *)
Definition put_blob (output : option string) (suffix blob : string) : M unit :=
  if nonempty blob then
    match output with
    | None => ([], Halt NullString)
    | Some prefix => emit (FilePut (prefix ++ suffix) blob)
    end
  else ret tt.

(** Lines 218-232. *)
Definition put_blobs (output : option string) (server_data : ServerData) : M unit :=
  put_blob output "_traj.txt" (getTraj server_data) ;;
  put_blob output "_run.txt" (getRunLog server_data) ;;
  put_blob output "_probtraj.csv" (getProbTraj server_data) ;;
  put_blob output "_statdist.csv" (getStatDist server_data) ;;
  put_blob output "_fp.csv" (getFP server_data).

(** Lines 218-241: the reply is stored, then judged by its status. *)
Definition deliver (output : option string) (server_data : ServerData)
  : M Empty_set :=
  put_blobs output server_data ;;
  if negb (getStatus server_data =? 0)%Z then
    emit (Cerr (status_msg (getErrorMessage server_data)
                           (getStatus server_data))) ;;
    return_ 1
  else return_ 0.

(** The request as lines 175-212 leave it: the network, the
    configuration calls, then variables, command and flags. *)
Definition request_of (l : locals) (contents : string)
    (calls : list ClientCall) : ClientData :=
  setNetwork contents :: calls
    ++ [setConfigVars (config_vars l);
        setCommand (if check l then CHECK_COMMAND else RUN_COMMAND);
        setFlags (flags_of l)].

(** Lines 164-241: [main] once the option loop is through. *)
Definition run (l : locals) : M Empty_set :=
  match ctbndl_file l with
  | None => emit (Cerr network_missing_msg) ;; usage
  | Some file =>
      if (String.length (port l) =? 0)%nat then
        emit (Cerr port_missing_msg) ;; usage
      else
        emit (FileGet file) ;;
        match fileGetContents file with
        | None => return_ 1
        | Some contents =>
            let client_data := call [] (setNetwork contents) in
            client_data <- add_configs client_data (runconfig_file_or_expr_v l) ;;
            let client_data := call client_data (setConfigVars (config_vars l)) in
            let client_data :=
              call client_data
                   (setCommand (if check l then CHECK_COMMAND else RUN_COMMAND)) in
            let client_data := call client_data (setFlags (flags_of l)) in
            emit (Send (host l) (port l) (verbose l) client_data) ;;
            let server_data := Client_send (host l) (port l) (verbose l) client_data in
            deliver (output l) server_data
        end
  end.

(** [int main(int argc, char* argv[])]: [argv[0]] is skipped, the trace
    and the outcome of the process are the result. *)
Definition main (argv : list string) : list event * outcome :=
  match (l <- parse_args initial (tl argv) ;; run l) with
  | (tr, Halt o) => (tr, o)
  | (tr, Go nothing) => match nothing with end
  end.

End Client.

(** ** The command line as its user reads it

    The words of a command line, grouped the way the usage message
    describes them: an option that takes a value together with its
    value, any other word that starts with a dash alone, and the words
    that are not options. *)
Inductive word : Type :=
  | WOpt (name value : string)
  | WFlag (name : string)
  | WMissing (name : string)      (* an option whose value is missing *)
  | WPos (text : string).

(** The options that are followed by a value. *)
Definition takes_value (opt : string) : bool :=
  existsb (String.eqb opt)
    ["--host"; "--port"; "--config-vars"; "--config-expr"; "-e";
     "-o"; "--output"; "-c"; "--config"].

(** The words of the arguments after [argv[0]]. *)
Fixpoint scan (args : list string) {struct args} : list word :=
  match args with
  | [] => []
  | a :: rest =>
      if is_option a then
        if takes_value a then
          match rest with
          | [] => [WMissing a]
          | v :: rest' => WOpt a v :: scan rest'
          end
        else WFlag a :: scan rest
      else WPos a :: scan rest
  end.

(** The option [name] is given, as an option without value. *)
Definition given (name : string) (ws : list word) : bool :=
  existsb (fun w => match w with WFlag n => n =? name | _ => false end) ws.

(** The [--config] and [--config-expr] options, in order. *)
Fixpoint config_options (ws : list word) : list ConfigOpt :=
  match ws with
  | [] => []
  | WOpt n v :: ws' =>
      if (n =? "--config") || (n =? "-c") then
        mkConfigOpt v false :: config_options ws'
      else if (n =? "--config-expr") || (n =? "-e") then
        mkConfigOpt v true :: config_options ws'
      else config_options ws'
  | _ :: ws' => config_options ws'
  end.

(** The arguments of the [--config-vars] options, in order. *)
Fixpoint config_vars_arguments (ws : list word) : list string :=
  match ws with
  | [] => []
  | WOpt n v :: ws' =>
      if n =? "--config-vars" then v :: config_vars_arguments ws'
      else config_vars_arguments ws'
  | _ :: ws' => config_vars_arguments ws'
  end.

(** The values of the [-o] and [--output] options, in order. *)
Fixpoint output_arguments (ws : list word) : list string :=
  match ws with
  | [] => []
  | WOpt n v :: ws' =>
      if (n =? "-o") || (n =? "--output") then v :: output_arguments ws'
      else output_arguments ws'
  | _ :: ws' => output_arguments ws'
  end.

(** The positional arguments, in order. *)
Fixpoint positionals (ws : list word) : list string :=
  match ws with
  | [] => []
  | WPos a :: ws' => a :: positionals ws'
  | _ :: ws' => positionals ws'
  end.

(** A word after which the option loop goes on, whatever came before it
    apart from the other of [--override] and [--augment]. *)
Definition passes (w : word) : bool :=
  match w with
  | WOpt _ _ => true
  | WPos _ => true
  | WMissing _ => false
  | WFlag n =>
      existsb (String.eqb n)
        ["--verbose"; "--override"; "--augment"; "--check"; "--hexfloat"]
  end.

(** The fragment a configuration option stands for: the contents of the
    file of a [--config], the text of a [--config-expr]. *)
Definition fragment_of (fileGetContents : string -> option string)
    (cfg : ConfigOpt) : option ConfigFragment :=
  if isExpr cfg then Some (EXPR (file_or_expr cfg))
  else option_map FILE_CONTENTS (fileGetContents (file_or_expr cfg)).

(** The call a configuration option ends up as. *)
Definition config_call (fileGetContents : string -> option string)
    (cfg : ConfigOpt) : option ClientCall :=
  if isExpr cfg then Some (addConfigExpr (file_or_expr cfg))
  else option_map addConfig (fileGetContents (file_or_expr cfg)).

(** [addConfig] or [addConfigExpr]. *)
Definition is_fragment_call (c : ClientCall) : bool :=
  match c with
  | addConfig _ | addConfigExpr _ => true
  | _ => false
  end.

(** The output prefix the command line gives: the value of its last
    [-o] or [--output], none without such an option. *)
Definition output_prefix (ws : list word) : option string :=
  last (map Some (output_arguments ws)) None.

(** The flags word the command line asks for. *)
Definition requested_flags (HEXFLOAT_FLAG OVERRIDE_FLAG AUGMENT_FLAG : Z)
    (ws : list word) : Z :=
  Z.lor (if given "--hexfloat" ws then HEXFLOAT_FLAG else 0)
        (Z.lor (if given "--override" ws then OVERRIDE_FLAG else 0)
               (if given "--augment" ws then AUGMENT_FLAG else 0)).

(** The strings of [l] in order, a comma between each two. *)
Definition comma_join (l : list string) : string := String.concat "," l.

(** [l] from its first non-empty string on. *)
Fixpoint drop_leading_empty (l : list string) : list string :=
  match l with
  | [] => []
  | s :: l' => if nonempty s then l else drop_leading_empty l'
  end.


(** ** Events by kind *)

(** [text] begins with [start]. *)
Fixpoint starts_with (start text : string) {struct start} : bool :=
  match start with
  | EmptyString => true
  | String a start' =>
      match text with
      | EmptyString => false
      | String b text' => Ascii.eqb a b && starts_with start' text'
      end
  end.

(** The warning of line 160. *)
Definition is_warning (e : event) : bool :=
  match e with
  | Cerr text =>
      starts_with (nl ++ prog ++ ": boolean network file is already set to ") text
  | _ => false
  end.

(** A run without its warnings. *)
Definition quiet {A} (r : list event * A) : list event * A :=
  (filter (fun e => negb (is_warning e)) (fst r), snd r).

(** The warnings for the positional arguments [ps], met while the
    network file is [file]. *)
Definition warnings (file : option string) (ps : list string) : list event :=
  match file, ps with
  | Some f, _ => map (fun p => Cerr (already_set_msg f p)) ps
  | None, [] => []
  | None, f :: ps' => map (fun p => Cerr (already_set_msg f p)) ps'
  end.

(** The trace holds the message of lines 139 and 144. *)
Definition complains (tr : list event) : bool :=
  existsb (fun e => match e with
                    | Cerr text => text =? exclusive_msg
                    | _ => false
                    end) tr.

(** Text on a console stream, or the diagnostic of [checkArgMissing]. *)
Definition is_console (e : event) : bool :=
  match e with
  | Cout _ | Cerr _ | ArgMissing _ => true
  | _ => false
  end.

(** A call of [filePutContents]. *)
Definition is_file_put (e : event) : bool :=
  match e with
  | FilePut _ _ => true
  | _ => false
  end.

(** The files written, in order: name and contents. *)
Fixpoint files_written (tr : list event) : list (string * string) :=
  match tr with
  | [] => []
  | FilePut f c :: tr' => (f, c) :: files_written tr'
  | _ :: tr' => files_written tr'
  end.

(** The non-empty blobs of a reply with the suffix of their kind, in the
    order of the reply. *)
Definition blobs (server_data : ServerData) : list (string * string) :=
  filter (fun sb => nonempty (snd sb))
    [("_traj.txt", getTraj server_data);
     ("_run.txt", getRunLog server_data);
     ("_probtraj.csv", getProbTraj server_data);
     ("_statdist.csv", getStatDist server_data);
     ("_fp.csv", getFP server_data)].

(** ** What the option loop has done when it is through *)

(** From the locals [l] over the words [ws] to the locals [l'], with the
    trace [tr]. *)
Definition go_facts (l : locals) (ws : list word) (tr : list event)
    (l' : locals) : Prop :=
  runconfig_file_or_expr_v l'
    = runconfig_file_or_expr_v l ++ config_options ws
  /\ config_vars l'
    = fold_left add_config_vars (config_vars_arguments ws) (config_vars l)
  /\ hexfloat l' = hexfloat l || given "--hexfloat" ws
  /\ override l' = override l || given "--override" ws
  /\ augment l' = augment l || given "--augment" ws
  /\ check l' = check l || given "--check" ws
  /\ ctbndl_file l' =
       match ctbndl_file l with
       | Some f => Some f
       | None => hd_error (positionals ws)
       end
  /\ output l'
    = fold_left (fun _ v => Some v) (output_arguments ws) (output l)
  /\ tr = warnings (ctbndl_file l) (positionals ws)
  /\ forallb passes ws = true.

(** The variable an exclusive option sets. *)
Definition exclusive_flag (name : string) (l : locals) : bool :=
  if name =? "--override" then override l
  else if name =? "--augment" then augment l
  else false.

(** [--override] and [--augment], in either order. *)
Definition exclusive_pair (first second : string) : Prop :=
  (first = "--override" /\ second = "--augment")
  \/ (first = "--augment" /\ second = "--override").

(** A pointer that is not null. *)
Definition is_some {A} (o : option A) : bool :=
  match o with
  | Some _ => true
  | None => false
  end.

(** A call of [fileGetContents]. *)
Definition is_file_get (e : event) : bool :=
  match e with
  | FileGet _ => true
  | _ => false
  end.

(** The files a reply is stored in under [prefix]: name and contents. *)
Definition stored (prefix : string) (server_data : ServerData)
  : list (string * string) :=
  map (fun sb => ((prefix ++ fst sb)%string, snd sb)) (blobs server_data).

(** The calls of [filePutContents] that write [files]. *)
Definition file_puts (files : list (string * string)) : list event :=
  map (fun f => FilePut (fst f) (snd f)) files.

(** What the status of a reply leads to: the message and the code. *)
Definition verdict (server_data : ServerData) : list event * outcome :=
  if (getStatus server_data =? 0)%Z then ([], Exit 0)
  else ([Cerr (status_msg (getErrorMessage server_data)
                          (getStatus server_data))],
        Exit 1).


(** What can follow the exchange: a file written, a message. *)
Definition is_aftermath (e : event) : bool :=
  match e with
  | FilePut _ _ | Cerr _ => true
  | _ => false
  end.

(** Neither the warning of line 160 nor the message of lines 139 and 144. *)
Definition is_plain (e : event) : bool :=
  negb (is_warning e) && negb (complains [e]).

(** [l] with another [output]. *)
Definition with_output (o : option string) (l : locals) : locals :=
  mkLocals o (runconfig_file_or_expr_v l) (config_vars l) (ctbndl_file l)
           (port l) (host l) (verbose l) (check l) (override l) (augment l) (hexfloat l).

(** A computation whose result is passed through [f]. *)
Definition go_on {A B} (f : A -> B) (r : list event * step A)
  : list event * step B :=
  (fst r, match snd r with
          | Go a => Go (f a)
          | Halt o => Halt o
          end).

(** What a run that reaches the exchange has read on its way: the
    network file, the first positional argument, and the files of the
    [--config] options. *)
Record exchange (argv : list string) (fileGetContents : string -> option string)
    (file contents : string) (calls : list ClientCall)
    (frags : list ConfigFragment) (reads : list event) : Prop := {
  ex_file : hd_error (positionals (scan (tl argv))) = Some file;
  ex_contents : fileGetContents file = Some contents;
  ex_calls :
    map Some calls
    = map (config_call fileGetContents) (config_options (scan (tl argv)));
  ex_frags :
    map Some frags
    = map (fragment_of fileGetContents) (config_options (scan (tl argv)));
  ex_reads : forallb is_file_get reads = true
}.

(** ** The rest of the command line *)

(** The values of the [--port] options, in order. *)
Fixpoint port_arguments (ws : list word) : list string :=
  match ws with
  | [] => []
  | WOpt n v :: ws' =>
      if n =? "--port" then v :: port_arguments ws' else port_arguments ws'
  | _ :: ws' => port_arguments ws'
  end.

(** The values of the [--host] options, in order. *)
Fixpoint host_arguments (ws : list word) : list string :=
  match ws with
  | [] => []
  | WOpt n v :: ws' =>
      if n =? "--host" then v :: host_arguments ws' else host_arguments ws'
  | _ :: ws' => host_arguments ws'
  end.

(** The words at which the option loop returns by itself, with what it
    writes and the code it returns: an option without its value, the
    version, the help, an option it does not know. *)
Definition stops (w : word) : option (list event * Z) :=
  match w with
  | WMissing opt => Some ([ArgMissing opt; Cerr usage_text], 1%Z)
  | WFlag f =>
      if (f =? "-version") || (f =? "--version") then
        Some ([Cout version_text], 0%Z)
      else if (f =? "--help") || (f =? "-h") then
        Some ([Cout usage_text; Cout options_text], 0%Z)
      else if passes (WFlag f) then None
      else Some ([Cerr (unknown_option_msg f); Cerr usage_text], 1%Z)
  | _ => None
  end.

(** Not both of [--override] and [--augment], the variables of [l]
    counted in. *)
Definition compatible (l : locals) (ws : list word) : bool :=
  negb ((override l || given "--override" ws)
        && (augment l || given "--augment" ws)).

(** The port and the host the command line gives: the value of the last
    [--port] and of the last [--host], empty without such an option. *)
Definition endpoint_port (ws : list word) : string :=
  last (port_arguments ws) "".

Definition endpoint_host (ws : list word) : string :=
  last (host_arguments ws) "".

(** The files of the [--config] options among [v], in order. *)
Fixpoint files_of (v : list ConfigOpt) : list string :=
  match v with
  | [] => []
  | cfg :: v' =>
      if isExpr cfg then files_of v' else file_or_expr cfg :: files_of v'
  end.

(** The files read out of [files], in order: up to the first that cannot
    be read, this one included. *)
Fixpoint files_tried (fileGetContents : string -> option string)
    (files : list string) : list string :=
  match files with
  | [] => []
  | f :: files' =>
      f :: (if is_some (fileGetContents f)
            then files_tried fileGetContents files' else [])
  end.

(** Every file of [files] can be read. *)
Definition readable (fileGetContents : string -> option string)
    (files : list string) : bool :=
  forallb (fun f => is_some (fileGetContents f)) files.

(** The option loop gets through: it passes every word, and the
    exclusive options are not both given. *)
Definition accepted (ws : list word) : bool :=
  forallb passes ws && compatible initial ws.

(** Text on a console stream or a call of [fileGetContents]. *)
Definition is_before_exchange (e : event) : bool :=
  is_console e || is_file_get e.

(** The files of the [--config] options of the command line, in order. *)
Definition config_files (ws : list word) : list string :=
  files_of (config_options ws).

(** Text on the standard output. *)
Definition is_cout (e : event) : bool :=
  match e with
  | Cout _ => true
  | _ => false
  end.

(** The options that stand alone and that the option loop knows. *)
Definition alone_options : list string :=
  ["-version"; "--version"; "--verbose"; "--override"; "--augment";
   "--check"; "--hexfloat"; "--help"; "-h"].

(** [setCommand]. *)
Definition is_set_command (c : ClientCall) : bool :=
  match c with
  | setCommand _ => true
  | _ => false
  end.

(** The usage message on the standard error. *)
Definition is_usage (e : event) : bool :=
  match e with
  | Cerr text => text =? usage_text
  | _ => false
  end.

(** ** A small world to run the client in *)

Definition example_files (file : string) : option string :=
  if file =? "net.bnd" then Some "A -> B;"
  else if file =? "empty.bnd" then Some ""
  else if file =? "run.cfg" then Some "A=1"
  else None.

Definition reply_ok : ServerData :=
  {| getTraj := ""; getRunLog := ""; getProbTraj := "t,A,B";
     getStatDist := ""; getFP := ""; getStatus := 0; getErrorMessage := "" |}.

Definition reply_failed : ServerData :=
  {| getTraj := ""; getRunLog := "partial"; getProbTraj := "";
     getStatDist := ""; getFP := ""; getStatus := 1;
     getErrorMessage := "unknown node C" |}.

(** A server that always gives the same reply. *)
Definition always (reply : ServerData)
  : string -> string -> bool -> ClientData -> ServerData :=
  fun _ _ _ _ => reply.

Definition argv_run : list string :=
  ["MaBoSS-client"; "--port"; "4291"; "-c"; "run.cfg"; "-e"; "B=2";
   "--config-vars"; "k=1"; "--config-vars"; "j=2"; "--hexfloat"; "--augment";
   "-o"; "out"; "net.bnd"; "extra.bnd"].

Definition request_run : ClientData :=
  [setNetwork "A -> B;"; addConfig "A=1"; addConfigExpr "B=2";
   setConfigVars "k=1,j=2"; setCommand RUN_COMMAND; setFlags 5].

Definition argv_plain : list string :=
  ["MaBoSS-client"; "--port"; "4291"; "-o"; "out"; "net.bnd"].

Definition argv_no_output : list string :=
  ["MaBoSS-client"; "--port"; "4291"; "net.bnd"].

Definition request_plain : ClientData :=
  [setNetwork "A -> B;"; setConfigVars ""; setCommand RUN_COMMAND; setFlags 0].

Definition argv_empty_var : list string :=
  ["MaBoSS-client"; "--config-vars"; ""; "--config-vars"; "A=1";
   "--port"; "4291"; "-o"; "out"; "net.bnd"].

Definition request_empty_var : ClientData :=
  [setNetwork "A -> B;"; setConfigVars "A=1"; setCommand RUN_COMMAND;
   setFlags 0].

Definition argv_empty_network : list string :=
  ["MaBoSS-client"; "--port"; "4291"; "-o"; "out"; "empty.bnd"].

Definition request_empty_network : ClientData :=
  [setNetwork ""; setConfigVars ""; setCommand RUN_COMMAND; setFlags 0].

Definition argv_help_between : list string :=
  ["MaBoSS-client"; "--override"; "--help"; "--augment"].

Definition argv_both : list string :=
  ["MaBoSS-client"; "--override"; "net.bnd"; "extra.bnd"; "--augment";
   "--port"; "4291"].

Definition argv_version : list string :=
  ["MaBoSS-client"; "net.bnd"; "extra.bnd"; "--version"; "--port"].

Definition argv_help : list string :=
  ["MaBoSS-client"; "--augment"; "-h"; "--override"].

Definition argv_short_vars : list string :=
  ["MaBoSS-client"; "--port"; "4291"; "-v"; "k=1"; "net.bnd"].

Definition argv_port_last : list string :=
  ["MaBoSS-client"; "net.bnd"; "extra.bnd"; "--port"].

Definition argv_no_network : list string :=
  ["MaBoSS-client"; "--port"; "4291"; "--check"].

Definition argv_empty_port : list string :=
  ["MaBoSS-client"; "net.bnd"; "--port"; "4291"; "--port"; ""].

Definition argv_no_such_network : list string :=
  ["MaBoSS-client"; "--port"; "4291"; "none.bnd"; "-c"; "run.cfg"].

Definition argv_no_such_config : list string :=
  ["MaBoSS-client"; "--port"; "4291"; "net.bnd"; "-c"; "run.cfg";
   "-c"; "none.cfg"; "-c"; "run.cfg"].

Definition argv_check : list string :=
  ["MaBoSS-client"; "--host"; "first"; "--port"; "1"; "-c"; "run.cfg";
   "--host"; "server"; "--verbose"; "-e"; "B=2"; "--check"; "-c"; "run.cfg";
   "--port"; "4291"; "-o"; "out"; "net.bnd"].

Definition request_check : ClientData :=
  [setNetwork "A -> B;"; addConfig "A=1"; addConfigExpr "B=2"; addConfig "A=1";
   setConfigVars ""; setCommand CHECK_COMMAND; setFlags 0].

(** * Properties *)

(** ** Lists, text and the monad *)

(** Induction over a command line, where an option may take the word
    after it along. *)
Lemma args_ind (P : list string -> Prop) :
  P [] ->
  (forall a rest,
      P rest -> (forall v rest', rest = v :: rest' -> P rest') -> P (a :: rest)) ->
  forall args, P args.
Proof.
  intros Hnil Hcons args.
  enough (P args /\ (forall v rest', args = v :: rest' -> P rest')) by tauto.
  induction args as [|a rest [IH1 IH2]]; split; auto.
  - discriminate.
  - intros v rest' E. injection E as _ <-. exact IH1.
Qed.

Lemma nonempty_false s : nonempty s = false -> s = "".
Proof. destruct s; [reflexivity | discriminate]. Qed.

Lemma nonempty_append s t : nonempty s = true -> nonempty (s ++ t) = true.
Proof. destruct s; [discriminate | reflexivity]. Qed.

Lemma append_assoc (s t u : string) : ((s ++ t) ++ u = s ++ (t ++ u))%string.
Proof. induction s as [|c s IH]; simpl; [reflexivity | now rewrite IH]. Qed.

Lemma fold_config_vars_nonempty : forall args acc,
  nonempty acc = true ->
  fold_left add_config_vars args acc = comma_join (acc :: args).
Proof.
  induction args as [|a args IH]; intros acc Hacc; [reflexivity|].
  cbn [fold_left]. unfold add_config_vars at 2. rewrite Hacc.
  assert (Hn : nonempty ((acc ++ ",") ++ a) = true).
  { do 2 apply nonempty_append. exact Hacc. }
  rewrite IH by exact Hn.
  unfold comma_join.
  destruct args as [|b args]; cbn [String.concat]; now rewrite !append_assoc.
Qed.

(** What lines 116-119 build over the [--config-vars] options. *)
Lemma fold_config_vars : forall args,
  fold_left add_config_vars args "" = comma_join (drop_leading_empty args).
Proof.
  induction args as [|a args IH]; [reflexivity|].
  cbn [fold_left drop_leading_empty]. unfold add_config_vars at 2. simpl nonempty.
  cbv iota. simpl append.
  destruct (nonempty a) eqn:Ha.
  - now apply fold_config_vars_nonempty.
  - apply nonempty_false in Ha. subst a. exact IH.
Qed.

Lemma last_cons {A} (x : A) (xs : list A) (d : A) :
  last (x :: xs) d = last xs x.
Proof.
  revert x d. induction xs as [|y ys IH]; intros x d; [reflexivity|].
  change (last (x :: y :: ys) d) with (last (y :: ys) d).
  now rewrite !IH.
Qed.

Lemma fold_last_output : forall (args : list string) (d : option string),
  fold_left (fun _ v => Some v) args d = last (map Some args) d.
Proof.
  induction args as [|a args IH]; intros d; [reflexivity|].
  cbn [fold_left map]. now rewrite IH, last_cons.
Qed.

Lemma forallb_In {A} (k : A -> bool) (l : list A) (x : A) :
  forallb k l = true -> In x l -> k x = true.
Proof. intros H. now apply forallb_forall. Qed.

Lemma is_warning_already_set file opt :
  is_warning (Cerr (already_set_msg file opt)) = true.
Proof. reflexivity. Qed.


Ltac split_opt opt :=
  repeat match goal with
  | |- context [String.eqb opt ?s] =>
      destruct (String.eqb_spec opt s); [subst opt | ]
  end.

(** ** The option loop *)

Ltac go_finish :=
  unfold go_facts in *; simpl in *;
  repeat match goal with H : _ /\ _ |- _ => destruct H end;
  repeat split;
  repeat match goal with H : _ = _ |- _ => rewrite H; clear H end;
  rewrite <- ?app_assoc, ?orb_true_r, ?orb_false_r; simpl; auto.

Lemma parse_args_go : forall args l tr l',
  parse_args l args = (tr, Go l') -> go_facts l (scan args) tr l'.
Proof.
  induction args as [|opt rest IH IH2] using args_ind; intros l tr l' H.
  - injection H as <- <-. unfold go_facts. simpl.
    rewrite app_nil_r, !orb_false_r.
    repeat split; auto; now destruct (ctbndl_file l).
  - simpl in H. simpl scan. destruct (is_option opt) eqn:Hopt.
    + unfold takes_value, existsb. revert H. split_opt opt; simpl.
      all: try discriminate.
      all: try (destruct rest as [|v rest']; [discriminate|]; intros H;
                apply (IH2 _ _ eq_refl) in H; clear IH IH2; go_finish; fail).
      all: try (intros H; apply IH in H; clear IH IH2; go_finish; fail).
      * destruct (augment l) eqn:Ha; [discriminate|].
        intros H; apply IH in H; clear IH IH2; go_finish.
      * destruct (override l) eqn:Ha; [discriminate|].
        intros H; apply IH in H; clear IH IH2; go_finish.
    + destruct (ctbndl_file l) as [file|] eqn:Hf.
      * destruct (parse_args l rest) as [tr' r] eqn:E. injection H as <- ->.
        apply IH in E; clear IH IH2. unfold go_facts in *.
        rewrite Hf in *. go_finish.
      * apply IH in H; clear IH IH2. unfold go_facts in *. simpl in H.
        rewrite Hf in *. go_finish.
Qed.

(** [override] and [augment] are never both set. *)
Lemma parse_args_exclusive : forall args l tr l',
  parse_args l args = (tr, Go l') ->
  override l && augment l = false -> override l' && augment l' = false.
Proof.
  induction args as [|opt rest IH IH2] using args_ind; intros l tr l' H.
  - injection H as _ <-. auto.
  - simpl in H. destruct (is_option opt) eqn:Hopt.
    + revert H. split_opt opt; simpl.
      all: try discriminate.
      all: try (destruct rest as [|v rest']; [discriminate|];
                intros H Hx; apply (IH2 _ _ eq_refl) in H; [exact H | exact Hx]).
      all: try (intros H Hx; apply IH in H; [exact H | exact Hx]).
      * destruct (augment l) eqn:Ha; [discriminate|].
        intros H _. apply IH in H; [exact H|]. simpl. exact Ha.
      * destruct (override l) eqn:Ha; [discriminate|].
        intros H _. apply IH in H; [exact H|]. simpl. now rewrite Ha.
    + destruct (ctbndl_file l) as [file|] eqn:Hf.
      * destruct (parse_args l rest) as [tr' r] eqn:E. injection H as <- ->.
        eapply IH; eauto.
      * intros Hx. apply IH in H; [exact H | exact Hx].
Qed.

(** The second of the two exclusive options is rejected where the loop
    meets it. *)
Lemma parse_args_reject first second :
  exclusive_pair first second ->
  forall args l pre post,
    scan args = pre ++ WFlag second :: post ->
    forallb passes pre = true ->
    exclusive_flag first l = true \/ In (WFlag first) pre ->
    exists warns,
      parse_args l args
        = (warns ++ [Cerr exclusive_msg; Cerr usage_text], Halt (Exit 1))
      /\ forallb is_warning warns = true.
Proof.
  intros Hpair.
  induction args as [|opt rest IH IH2] using args_ind;
    intros l pre post Hscan Hpass Hfirst.
  - destruct pre; discriminate.
  - simpl in Hscan. simpl parse_args. destruct (is_option opt) eqn:Hopt.
    + unfold takes_value, existsb in Hscan. revert Hscan.
      destruct pre as [|w pre]; simpl in Hpass |- *.
      * (* the second option is the word at hand *)
        destruct Hfirst as [Hfirst|[]].
        destruct Hpair as [[-> ->]|[-> ->]];
          unfold exclusive_flag in Hfirst; simpl in Hfirst;
          split_opt opt; simpl; try discriminate;
          try (destruct rest; discriminate);
          try (intros E; injection E as E _; congruence);
          intros _; rewrite Hfirst; exists []; split; reflexivity.
      * apply andb_prop in Hpass as [Hw Hpass].
        split_opt opt; simpl.
        all: try (intros E; injection E as <- E; discriminate).
        all: try (destruct rest as [|v rest'];
                  [intros E; injection E as _ E; destruct pre; discriminate|];
                  intros E; injection E as <- E;
                  apply (IH2 _ _ eq_refl _ _ _ E Hpass);
                  destruct Hfirst as [Hfirst|[Hfirst|Hfirst]];
                  [left; exact Hfirst | discriminate | right; exact Hfirst]).
        all: try (intros E; injection E as <- E;
                  apply (IH _ _ _ E Hpass);
                  destruct Hfirst as [Hfirst|[Hfirst|Hfirst]];
                  [left; exact Hfirst
                  | destruct Hpair as [[-> ->]|[-> ->]]; discriminate
                  | right; exact Hfirst]).
        -- intros E; injection E as <- E.
           destruct (augment l) eqn:Ha; [exists []; split; reflexivity|].
           apply (IH _ _ _ E Hpass).
           destruct Hpair as [[-> ->]|[-> ->]]; [left; reflexivity|].
           destruct Hfirst as [Hfirst|[Hfirst|Hfirst]];
             [unfold exclusive_flag in Hfirst; simpl in Hfirst; congruence
             | discriminate | right; exact Hfirst].
        -- intros E; injection E as <- E.
           destruct (override l) eqn:Ha; [exists []; split; reflexivity|].
           apply (IH _ _ _ E Hpass).
           destruct Hpair as [[-> ->]|[-> ->]]; [|left; reflexivity].
           destruct Hfirst as [Hfirst|[Hfirst|Hfirst]];
             [unfold exclusive_flag in Hfirst; simpl in Hfirst; congruence
             | discriminate | right; exact Hfirst].
        -- intros E; injection E as <- E. exfalso.
           unfold passes, existsb in Hw.
           repeat match goal with
                  | n : opt <> ?s |- _ =>
                      apply String.eqb_neq in n; rewrite ?n in Hw; clear n
                  end.
           discriminate.
    + destruct pre as [|w pre]; [discriminate|].
      injection Hscan as <- Hscan. simpl in Hpass.
      assert (Hfirst' : exclusive_flag first l = true \/ In (WFlag first) pre)
        by (destruct Hfirst as [Hfirst|[Hfirst|Hfirst]];
            [left; exact Hfirst | discriminate | right; exact Hfirst]).
      destruct (ctbndl_file l) as [file|] eqn:Hf.
      * destruct (IH l _ _ Hscan Hpass Hfirst') as [warns [E Hw]].
        exists (Cerr (already_set_msg file opt) :: warns). rewrite E. split.
        -- reflexivity.
        -- cbn [forallb]. now rewrite is_warning_already_set.
      * apply (IH (set_ctbndl_file opt l) _ _ Hscan Hpass Hfirst').
Qed.

(** A run of the option loop that stops has only written on the console
    and returns 0 or 1. *)
Lemma parse_args_console : forall args l tr r,
  parse_args l args = (tr, r) ->
  forallb is_console tr = true
  /\ (forall o, r = Halt o -> o = Exit 0 \/ o = Exit 1).
Proof.
  induction args as [|opt rest IH IH2] using args_ind; intros l tr r H.
  - injection H as <- <-. split; [reflexivity | discriminate].
  - simpl in H. destruct (is_option opt) eqn:Hopt.
    + revert H. split_opt opt; simpl.
      all: try (destruct rest as [|v rest']; [|apply (IH2 _ _ eq_refl)]).
      all: try (apply IH; fail).
      all: try (destruct (augment l); [|apply IH]).
      all: try (destruct (override l); [|apply IH]).
      all: intros H; injection H as <- <-; split; [reflexivity|];
        intros o E; injection E as <-; auto.
    + destruct (ctbndl_file l) as [file|]; [|now apply IH in H].
      destruct (parse_args l rest) as [tr' r'] eqn:E. injection H as <- <-.
      apply IH in E. exact E.
Qed.

(** The message about exclusive options comes with both of them. *)
Lemma parse_args_complains : forall args l tr r,
  parse_args l args = (tr, r) ->
  complains tr = true ->
  (override l || given "--override" (scan args))
  && (augment l || given "--augment" (scan args)) = true.
Proof.
  induction args as [|opt rest IH IH2] using args_ind; intros l tr r H.
  - injection H as <- <-. discriminate.
  - simpl in H. simpl scan. destruct (is_option opt) eqn:Hopt.
    + unfold takes_value, existsb. revert H. split_opt opt; simpl.
      all: try (intros H; injection H as <- <-; discriminate).
      all: try (destruct rest as [|v rest']; simpl;
                [intros H; injection H as <- <-; discriminate
                |intros H Hc; exact (IH2 _ _ eq_refl _ _ _ H Hc)]).
      all: try (intros H Hc; exact (IH _ _ _ H Hc)).
      * destruct (augment l) eqn:Ha; intros H Hc.
        -- now rewrite orb_true_r.
        -- apply (IH _ _ _ H) in Hc. simpl in Hc. rewrite Ha in Hc.
           now rewrite orb_true_r.
      * destruct (override l) eqn:Ha; intros H Hc.
        -- now rewrite orb_true_r.
        -- apply (IH _ _ _ H) in Hc. simpl in Hc. rewrite Ha in Hc.
           now rewrite orb_true_r.
    + simpl. destruct (ctbndl_file l) as [file|].
      * destruct (parse_args l rest) as [tr' r'] eqn:E. injection H as <- <-.
        intros Hc. exact (IH _ _ _ E Hc).
      * exact (IH _ _ _ H).
Qed.

Lemma quiet_bind {A B} (m : M A) (f : A -> M B) :
  quiet (bind m f) = bind (quiet m) (fun a => quiet (f a)).
Proof.
  destruct m as [tr [a|o]]; simpl; [|reflexivity].
  destruct (f a) as [tr' r]. unfold quiet. simpl. now rewrite filter_app.
Qed.


(** The option loop carries [output] along and, without [-o], does not
    touch it. *)
Lemma parse_args_with_output : forall args l o,
  output_arguments (scan args) = [] ->
  parse_args (with_output o l) args = go_on (with_output o) (parse_args l args).
Proof.
  induction args as [|opt rest IH IH2] using args_ind; intros l o.
  - reflexivity.
  - simpl. destruct (is_option opt) eqn:Hopt.
    + unfold takes_value, existsb. split_opt opt; simpl.
      all: try reflexivity.
      all: try (destruct rest as [|v rest']; [reflexivity|]; simpl;
                first [discriminate
                      | intros Hout;
                        match goal with
                        | |- _ = go_on _ (parse_args ?l' _) =>
                            exact (IH2 _ _ eq_refl l' o Hout)
                        end]).
      all: try (intros Hout;
                match goal with
                | |- _ = go_on _ (parse_args ?l' _) => exact (IH l' o Hout)
                end).
      * intros Hout. destruct (augment l); [reflexivity | exact (IH (set_override l) o Hout)].
      * intros Hout. destruct (override l); [reflexivity | exact (IH (set_augment l) o Hout)].
    + intros Hout. destruct (ctbndl_file l) as [file|] eqn:Hf.
      * rewrite (IH l o Hout). now destruct (parse_args l rest) as [tr [l'|x]].
      * exact (IH (set_ctbndl_file opt l) o Hout).
Qed.


(** ** The request *)

(** The Request Model that the calls of [main] build. *)
Lemma request_model_calls fileGetContents : forall cfgs calls r,
  map Some calls = map (config_call fileGetContents) cfgs ->
  exists frags,
    map Some frags = map (fragment_of fileGetContents) cfgs
    /\ forallb is_fragment_call calls = true
    /\ fold_left apply_call calls r
       = {| network := network r; fragments := fragments r ++ frags;
            variableOverrides := variableOverrides r;
            command := command r; flags := flags r |}.
Proof.
  induction cfgs as [|cfg cfgs IH]; intros [|c calls] r H; try discriminate.
  - exists []. rewrite app_nil_r. now destruct r.
  - cbn [map] in H. injection H as Hc H.
    destruct (IH _ (apply_call r c) H) as [frags [Hf [Hk E]]].
    unfold config_call in Hc. unfold fragment_of at 1. cbn [map fold_left].
    rewrite E. clear E.
    destruct (isExpr cfg).
    + injection Hc as ->. exists (EXPR (file_or_expr cfg) :: frags).
      cbn [map forallb is_fragment_call apply_call network fragments
           variableOverrides command flags].
      rewrite <- app_assoc, Hf, Hk. repeat split; reflexivity.
    + destruct (fileGetContents (file_or_expr cfg)) as [contents|];
        [|discriminate].
      injection Hc as ->. exists (FILE_CONTENTS contents :: frags).
      cbn [map forallb is_fragment_call apply_call network fragments
           variableOverrides command flags option_map].
      rewrite <- app_assoc, Hf, Hk. repeat split; reflexivity.
Qed.

Lemma request_model_request_of H O A fileGetContents l contents cfgs calls :
  map Some calls = map (config_call fileGetContents) cfgs ->
  exists frags,
    map Some frags = map (fragment_of fileGetContents) cfgs
    /\ forallb is_fragment_call calls = true
    /\ request_model (request_of H O A l contents calls)
       = {| network := contents; fragments := frags;
            variableOverrides := config_vars l;
            command := if check l then CHECK_COMMAND else RUN_COMMAND;
            flags := flags_of H O A l |}.
Proof.
  intros Hc.
  destruct (request_model_calls _ _ _ (apply_call empty_request (setNetwork contents)) Hc)
    as [frags [Hf [Hk E]]].
  exists frags. repeat split; [exact Hf | exact Hk |].
  unfold request_model, request_of. cbn [fold_left].
  rewrite fold_left_app, E. reflexivity.
Qed.

(** ** From the option loop to the exit code *)

Section Run.

Variables HEXFLOAT_FLAG OVERRIDE_FLAG AUGMENT_FLAG : Z.
Variable fileGetContents : string -> option string.
Variable Client_send : string -> string -> bool -> ClientData -> ServerData.

Local Abbreviation add_configs := (add_configs fileGetContents).
Local Abbreviation flags_of := (flags_of HEXFLOAT_FLAG OVERRIDE_FLAG AUGMENT_FLAG).
Local Abbreviation request_of := (request_of HEXFLOAT_FLAG OVERRIDE_FLAG AUGMENT_FLAG).
Local Abbreviation run := (run HEXFLOAT_FLAG OVERRIDE_FLAG AUGMENT_FLAG fileGetContents Client_send).
Local Abbreviation main := (main HEXFLOAT_FLAG OVERRIDE_FLAG AUGMENT_FLAG fileGetContents Client_send).

(** With an output prefix every non-empty blob is written. *)
Lemma put_blobs_some prefix server_data :
  put_blobs (Some prefix) server_data
  = (file_puts (stored prefix server_data), Go tt).
Proof.
  unfold put_blobs, put_blob, stored, blobs, file_puts. simpl.
  destruct (nonempty (getTraj server_data)),
           (nonempty (getRunLog server_data)),
           (nonempty (getProbTraj server_data)),
           (nonempty (getStatDist server_data)),
           (nonempty (getFP server_data)); reflexivity.
Qed.

(** Without one the first non-empty blob meets the null pointer. *)
Lemma put_blobs_none server_data :
  put_blobs None server_data
  = ([], match blobs server_data with
         | [] => Go tt
         | _ :: _ => Halt NullString
         end).
Proof.
  unfold put_blobs, put_blob, blobs. simpl.
  destruct (nonempty (getTraj server_data)),
           (nonempty (getRunLog server_data)),
           (nonempty (getProbTraj server_data)),
           (nonempty (getStatDist server_data)),
           (nonempty (getFP server_data)); reflexivity.
Qed.

Lemma deliver_some prefix server_data :
  deliver (Some prefix) server_data
  = (file_puts (stored prefix server_data) ++ fst (verdict server_data),
     Halt (snd (verdict server_data))).
Proof.
  unfold deliver, verdict. rewrite put_blobs_some.
  destruct (getStatus server_data =? 0)%Z; reflexivity.
Qed.

Lemma deliver_none server_data :
  deliver None server_data
  = match blobs server_data with
    | [] => (fst (verdict server_data), Halt (snd (verdict server_data)))
    | _ :: _ => ([], Halt NullString)
    end.
Proof.
  unfold deliver, verdict. rewrite put_blobs_none.
  destruct (blobs server_data); [|reflexivity].
  destruct (getStatus server_data =? 0)%Z; reflexivity.
Qed.

(** The configuration loop reads the files of the [--config] options
    and adds one call for each option, or returns 1 at the first file
    it cannot read. *)
Lemma add_configs_spec : forall v client_data tr r,
  add_configs client_data v = (tr, r) ->
  forallb is_file_get tr = true
  /\ match r with
     | Go client_data' =>
         exists calls,
           map Some calls = map (config_call fileGetContents) v
           /\ client_data' = client_data ++ calls
     | Halt o => o = Exit 1
     end.
Proof.
  induction v as [|cfg v IH]; intros client_data tr r H.
  - injection H as <- <-. split; [reflexivity|]. exists []. now rewrite app_nil_r.
  - simpl in H. destruct (isExpr cfg) eqn:Hexpr.
    + destruct (IH _ _ _ H) as [Hg Hr]. split; [exact Hg|].
      destruct r as [cd'|o]; [|exact Hr].
      destruct Hr as [calls [Hc ->]].
      exists (addConfigExpr (getExpr cfg) :: calls). split.
      * cbn [map]. unfold config_call at 1. rewrite Hexpr. now rewrite Hc.
      * unfold call. now rewrite <- app_assoc.
    + unfold getFile in H.
      destruct (fileGetContents (file_or_expr cfg)) as [contents|] eqn:Hfile.
      * simpl in H.
        destruct (add_configs (call client_data (addConfig contents)) v)
          as [tr' r'] eqn:E.
        injection H as <- <-.
        destruct (IH _ _ _ E) as [Hg Hr]. split; [exact Hg|].
        destruct r' as [cd'|o]; [|exact Hr].
        destruct Hr as [calls [Hc ->]].
        exists (addConfig contents :: calls). split.
        -- cbn [map]. unfold config_call at 1. rewrite Hexpr, Hfile. now rewrite Hc.
        -- unfold call. now rewrite <- app_assoc.
      * injection H as <- <-. split; reflexivity.
Qed.

Lemma deliver_aftermath output server_data tail r :
  deliver output server_data = (tail, r) ->
  forallb is_aftermath tail = true /\ exists o, r = Halt o.
Proof.
  destruct output as [prefix|].
  - rewrite deliver_some. intros H. injection H as <- <-. split; [|eauto].
    rewrite forallb_app. apply andb_true_intro. split.
    + unfold file_puts. induction (stored prefix server_data); simpl; auto.
    + unfold verdict. now destruct (getStatus server_data =? 0)%Z.
  - rewrite deliver_none. destruct (blobs server_data).
    + intros H. injection H as <- <-. split; [|eauto].
      unfold verdict. now destruct (getStatus server_data =? 0)%Z.
    + intros H. injection H as <- <-. split; [reflexivity|eauto].
Qed.

(** A run of [run] with an exchange in it. *)
Lemma run_sent l tr r h p v client_data :
  run l = (tr, r) ->
  In (Send h p v client_data) tr ->
  exists file contents calls reads tail,
    ctbndl_file l = Some file
    /\ fileGetContents file = Some contents
    /\ map Some calls
       = map (config_call fileGetContents) (runconfig_file_or_expr_v l)
    /\ client_data = request_of l contents calls
    /\ forallb is_file_get reads = true
    /\ tr = FileGet file :: reads ++ Send h p v client_data :: tail
    /\ deliver (output l) (Client_send h p v client_data) = (tail, r).
Proof.
  unfold run. destruct (ctbndl_file l) as [file|].
  2: { intros H. injection H as <- <-. simpl. intuition discriminate. }
  destruct (String.length (port l) =? 0)%nat.
  { intros H. injection H as <- <-. simpl. intuition discriminate. }
  destruct (fileGetContents file) as [contents|] eqn:Hfile.
  2: { intros H. injection H as <- <-. simpl. intuition discriminate. }
  cbv zeta.
  destruct (add_configs (call [] (setNetwork contents)) (runconfig_file_or_expr_v l))
    as [reads [cd1|o]] eqn:E;
    destruct (add_configs_spec _ _ _ _ E) as [Hreads Hr];
    unfold bind, emit.
  2: { intros H. injection H as <- <-. intros [Hin|Hin]; [discriminate|].
       apply (forallb_In _ _ _ Hreads) in Hin. discriminate. }
  destruct Hr as [calls [Hcalls ->]].
  match goal with
  | |- context [deliver ?o ?sd] => destruct (deliver o sd) as [tail r'] eqn:D
  end.
  intros H. injection H as <- <-.
  destruct (deliver_aftermath _ _ _ _ D) as [Htail _].
  intros [Hin|Hin]; [discriminate|].
  simpl in Hin. apply in_app_or in Hin as [Hin|Hin].
  { apply (forallb_In _ _ _ Hreads) in Hin. discriminate. }
  destruct Hin as [Hin|Hin].
  2: { apply (forallb_In _ _ _ Htail) in Hin. discriminate. }
  injection Hin as <- <- <- <-.
  exists file, contents, calls, reads, tail.
  repeat split; auto.
  unfold request_of, call. simpl. now rewrite <- !app_assoc.
Qed.

(** A run of [main] with an exchange in it. *)
Lemma main_sent argv h p v client_data :
  In (Send h p v client_data) (fst (main argv)) ->
  exists l warns file contents calls reads tail o,
    parse_args initial (tl argv) = (warns, Go l)
    /\ ctbndl_file l = Some file
    /\ fileGetContents file = Some contents
    /\ map Some calls
       = map (config_call fileGetContents) (runconfig_file_or_expr_v l)
    /\ client_data = request_of l contents calls
    /\ forallb is_file_get reads = true
    /\ deliver (output l) (Client_send h p v client_data) = (tail, Halt o)
    /\ main argv
       = (warns ++ FileGet file :: reads ++ Send h p v client_data :: tail, o).
Proof.
  unfold main.
  destruct (parse_args initial (tl argv)) as [warns [l|o]] eqn:P.
  2: { simpl. intros Hin.
       apply (forallb_In _ _ _ (proj1 (parse_args_console _ _ _ _ P))) in Hin.
       discriminate. }
  unfold bind. destruct (run l) as [tr r] eqn:R.
  destruct r as [[]|o]. simpl. intros Hin.
  apply in_app_or in Hin as [Hin|Hin].
  { apply (forallb_In _ _ _ (proj1 (parse_args_console _ _ _ _ P))) in Hin.
    discriminate. }
  destruct (run_sent _ _ _ _ _ _ _ R Hin)
    as (file & contents & calls & reads & tail & H1 & H2 & H3 & H4 & H5 & H6 & H7).
  exists l, warns, file, contents, calls, reads, tail, o.
  rewrite H6. repeat split; auto.
Qed.

End Run.

(** ** Traces *)

Lemma files_written_app tr tr' :
  files_written (tr ++ tr') = files_written tr ++ files_written tr'.
Proof.
  induction tr as [|e tr IH]; [reflexivity|].
  destruct e; simpl; now rewrite IH.
Qed.

Lemma files_written_none tr :
  forallb (fun e => negb (is_file_put e)) tr = true -> files_written tr = [].
Proof.
  induction tr as [|e tr IH]; [reflexivity|].
  destruct e; simpl; auto. discriminate.
Qed.

Lemma files_written_warnings file ps : files_written (warnings file ps) = [].
Proof.
  apply files_written_none.
  destruct file as [f|]; [|destruct ps as [|f ps]; [reflexivity|]];
    simpl; induction ps; simpl; auto.
Qed.

Lemma files_written_reads reads :
  forallb is_file_get reads = true -> files_written reads = [].
Proof.
  intros H. apply files_written_none. revert H.
  induction reads as [|e reads IH]; [reflexivity|].
  destruct e; simpl; auto; discriminate.
Qed.

Lemma files_written_puts files : files_written (file_puts files) = files.
Proof.
  induction files as [|[f c] files IH]; [reflexivity|].
  simpl. now rewrite IH.
Qed.

Lemma files_written_verdict server_data :
  files_written (fst (verdict server_data)) = [].
Proof. unfold verdict. now destruct (getStatus server_data =? 0)%Z. Qed.

Lemma complains_app tr tr' :
  complains (tr ++ tr') = complains tr || complains tr'.
Proof. apply existsb_app. Qed.

Lemma complains_In tr : In (Cerr exclusive_msg) tr -> complains tr = true.
Proof.
  intros H. apply existsb_exists. exists (Cerr exclusive_msg).
  split; [exact H | apply String.eqb_refl].
Qed.


Lemma is_plain_complains tr : forallb is_plain tr = true -> complains tr = false.
Proof.
  induction tr as [|e tr IH]; [reflexivity|].
  cbn [forallb]. unfold is_plain at 1.
  intros H. apply andb_prop in H as [H Htr]. apply andb_prop in H as [_ H].
  change (complains (e :: tr)) with (complains ([e] ++ tr)).
  rewrite complains_app, (IH Htr). now destruct (complains [e]).
Qed.

Lemma is_plain_reads reads :
  forallb is_file_get reads = true -> forallb is_plain reads = true.
Proof.
  induction reads as [|e reads IH]; [reflexivity|].
  destruct e; simpl; auto; discriminate.
Qed.

Lemma is_plain_deliver output server_data tail r :
  deliver output server_data = (tail, r) -> forallb is_plain tail = true.
Proof.
  assert (Hv : forallb is_plain (fst (verdict server_data)) = true)
    by (unfold verdict; now destruct (getStatus server_data =? 0)%Z).
  destruct output as [prefix|].
  - rewrite deliver_some. intros H. injection H as <- _.
    rewrite forallb_app, Hv, andb_true_r. unfold file_puts.
    induction (stored prefix server_data); simpl; auto.
  - rewrite deliver_none. destruct (blobs server_data); intros H;
      injection H as <- _; [exact Hv | reflexivity].
Qed.

(** ** The claims *)

Section Claims.

Variables HEXFLOAT_FLAG OVERRIDE_FLAG AUGMENT_FLAG : Z.
Variable fileGetContents : string -> option string.
Variable Client_send : string -> string -> bool -> ClientData -> ServerData.

Local Abbreviation flags_of := (flags_of HEXFLOAT_FLAG OVERRIDE_FLAG AUGMENT_FLAG).
Local Abbreviation request_of := (request_of HEXFLOAT_FLAG OVERRIDE_FLAG AUGMENT_FLAG).
Local Abbreviation requested_flags := (requested_flags HEXFLOAT_FLAG OVERRIDE_FLAG AUGMENT_FLAG).
Local Abbreviation run := (run HEXFLOAT_FLAG OVERRIDE_FLAG AUGMENT_FLAG fileGetContents Client_send).
Local Abbreviation main := (main HEXFLOAT_FLAG OVERRIDE_FLAG AUGMENT_FLAG fileGetContents Client_send).

Lemma flags_of_requested l ws :
  hexfloat l = given "--hexfloat" ws ->
  override l = given "--override" ws ->
  augment l = given "--augment" ws ->
  flags_of l = requested_flags ws.
Proof.
  unfold flags_of, requested_flags. intros -> -> ->.
  destruct (given "--hexfloat" ws), (given "--override" ws),
    (given "--augment" ws);
    rewrite ?Z.lor_0_l, ?Z.lor_0_r, ?Z.lor_assoc; reflexivity.
Qed.

(** After the option loop the client neither warns about a positional
    argument nor complains about exclusive options, and what it does
    first, unless it stops on the console, is to read the network file. *)
Lemma run_plain l tr r :
  run l = (tr, r) ->
  forallb is_plain tr = true
  /\ (exists o, r = Halt o)
  /\ (forallb is_console tr = true
      \/ exists file tr', ctbndl_file l = Some file /\ tr = FileGet file :: tr').
Proof.
  unfold run. destruct (ctbndl_file l) as [file|].
  2: { intros H. injection H as <- <-. repeat split; eauto. }
  destruct (String.length (port l) =? 0)%nat.
  { intros H. injection H as <- <-. repeat split; eauto. }
  destruct (fileGetContents file) as [contents|] eqn:Hfile.
  2: { intros H. injection H as <- <-. repeat split; eauto. }
  cbv zeta.
  destruct (add_configs fileGetContents (call [] (setNetwork contents))
              (runconfig_file_or_expr_v l))
    as [reads [cd1|o]] eqn:E;
    destruct (add_configs_spec _ _ _ _ _ E) as [Hreads Hr];
    unfold bind, emit.
  2: { intros H. injection H as <- <-. cbn [app forallb].
       rewrite (is_plain_reads _ Hreads). repeat split; eauto. }
  match goal with
  | |- context [deliver ?o ?sd] => destruct (deliver o sd) as [tail r'] eqn:D
  end.
  intros H. injection H as <- <-.
  destruct (deliver_aftermath _ _ _ _ D) as [_ Hr'].
  split; [|split; [exact Hr' | right; eauto]].
  cbn [app forallb]. rewrite forallb_app. cbn [forallb].
  now rewrite (is_plain_reads _ Hreads), (is_plain_deliver _ _ _ _ D).
Qed.

(** [main] by the outcome of the option loop. *)
Lemma main_halt argv warns o :
  parse_args initial (tl argv) = (warns, Halt o) -> main argv = (warns, o).
Proof. unfold main. now intros ->. Qed.

Lemma main_go argv warns l :
  parse_args initial (tl argv) = (warns, Go l) ->
  exists tr o, run l = (tr, Halt o) /\ main argv = (warns ++ tr, o).
Proof.
  unfold main. intros ->. unfold bind.
  destruct (run l) as [tr [[]|o]]. now exists tr, o.
Qed.

(** Every run that reaches the exchange, told from its command line. *)
Lemma main_exchange argv h p v client_data :
  In (Send h p v client_data) (fst (main argv)) ->
  exists file contents calls frags reads tail o,
    exchange argv fileGetContents file contents calls frags reads
    /\ client_data
       = setNetwork contents :: calls
           ++ [setConfigVars
                 (comma_join (drop_leading_empty
                                (config_vars_arguments (scan (tl argv)))));
               setCommand (if given "--check" (scan (tl argv))
                           then CHECK_COMMAND else RUN_COMMAND);
               setFlags (requested_flags (scan (tl argv)))]
    /\ request_model client_data
       = {| network := contents; fragments := frags;
            variableOverrides :=
              comma_join (drop_leading_empty
                            (config_vars_arguments (scan (tl argv))));
            command := if given "--check" (scan (tl argv))
                       then CHECK_COMMAND else RUN_COMMAND;
            flags := requested_flags (scan (tl argv)) |}
    /\ given "--override" (scan (tl argv)) && given "--augment" (scan (tl argv))
       = false
    /\ deliver (output_prefix (scan (tl argv))) (Client_send h p v client_data)
       = (tail, Halt o)
    /\ main argv
       = (warnings None (positionals (scan (tl argv)))
            ++ FileGet file :: reads ++ Send h p v client_data :: tail, o).
Proof.
  intros Hin.
  destruct (main_sent _ _ _ _ _ _ _ _ _ _ Hin)
    as (l & warns & file & contents & calls & reads & tail & o
        & P & Hfile & Hcontents & Hcalls & Hcd & Hreads & D & E).
  pose proof (parse_args_exclusive _ _ _ _ P eq_refl) as Hx.
  apply parse_args_go in P.
  destruct P as (Hcfg & Hvars & Hh & Ho & Ha & Hc & Hf & Hout & Hw & _).
  simpl in Hcfg, Hvars, Hh, Ho, Ha, Hc, Hf, Hout, Hw.
  rewrite fold_config_vars in Hvars. rewrite fold_last_output in Hout.
  rewrite Ho, Ha in Hx.
  rewrite Hcfg in Hcalls.
  destruct (request_model_request_of HEXFLOAT_FLAG OVERRIDE_FLAG AUGMENT_FLAG
              _ l contents _ _ Hcalls) as (frags & Hfrags & _ & R).
  rewrite <- Hcd in R.
  rewrite (flags_of_requested l _ Hh Ho Ha), Hvars, Hc in R.
  exists file, contents, calls, frags, reads, tail, o.
  split; [|split; [|split; [|split; [|split]]]].
  - constructor; congruence.
  - rewrite Hcd. unfold request_of.
    now rewrite (flags_of_requested l _ Hh Ho Ha), Hvars, Hc.
  - exact R.
  - exact Hx.
  - unfold output_prefix. now rewrite <- Hout.
  - now rewrite E, Hw.
Qed.

(** Up to the exchange, [run] does not look at [output]. *)
Lemma run_with_output l o h p v client_data :
  In (Send h p v client_data) (fst (run (with_output o l)))
  <-> In (Send h p v client_data) (fst (run l)).
Proof.
  unfold run. cbn [with_output ctbndl_file port host verbose check
                   runconfig_file_or_expr_v config_vars output].
  destruct (ctbndl_file l) as [file|]; [|reflexivity].
  destruct (String.length (port l) =? 0)%nat; [reflexivity|].
  destruct (fileGetContents file) as [contents|]; [|reflexivity].
  cbv zeta.
  destruct (add_configs fileGetContents (call [] (setNetwork contents))
              (runconfig_file_or_expr_v l)) as [reads [cd1|x]];
    [|reflexivity].
  unfold bind, emit.
  change (flags_of (with_output o l)) with (flags_of l).
  repeat match goal with
  | |- context [deliver ?out ?sd] =>
      let D := fresh "D" in
      destruct (deliver out sd) as [? ?] eqn:D;
      apply deliver_aftermath in D; destruct D as [D _]
  end.
  cbn [fst app In]. rewrite !in_app_iff. cbn [In].
  split; intros [H|[H|[H|H]]]; auto; exfalso;
    match goal with
    | D : forallb is_aftermath ?t = true, H : In _ ?t |- _ =>
        apply (forallb_In _ _ _ D) in H; discriminate
    end.
Qed.

(** Whether the exchange is reached, and with which request, does not
    depend on an output prefix being given. *)
Lemma main_with_output argv prefix h p v client_data :
  output_arguments (scan (tl argv)) = [] ->
  In (Send h p v client_data)
     (fst (main (hd "" argv :: "-o" :: prefix :: tl argv)))
  <-> In (Send h p v client_data) (fst (main argv)).
Proof.
  intros Hout.
  assert (P' : parse_args initial (tl (hd "" argv :: "-o" :: prefix :: tl argv))
               = go_on (with_output (Some prefix)) (parse_args initial (tl argv)))
    by exact (parse_args_with_output (tl argv) initial (Some prefix) Hout).
  destruct (parse_args initial (tl argv)) as [warns [l|x]] eqn:P;
    unfold go_on in P'; cbn [fst snd] in P'.
  - destruct (main_go _ _ _ P) as (tr & x & R & ->).
    destruct (main_go _ _ _ P') as (tr' & x' & R' & ->).
    pose proof (run_with_output l (Some prefix) h p v client_data) as Hrun.
    rewrite R, R' in Hrun. cbn [fst] in *. rewrite !in_app_iff.
    split; (intros [H|H]; [left; exact H | right; apply Hrun; exact H]).
  - rewrite (main_halt _ _ _ P), (main_halt _ _ _ P').
    reflexivity.
Qed.

(** What follows the exchange, by output prefix and reply. *)
Lemma main_delivers argv h p v client_data :
  In (Send h p v client_data) (fst (main argv)) ->
  exists tr tail,
    fst (main argv) = tr ++ Send h p v client_data :: tail
    /\ files_written (fst (main argv)) = files_written tail
    /\ deliver (output_prefix (scan (tl argv))) (Client_send h p v client_data)
       = (tail, Halt (snd (main argv))).
Proof.
  intros Hin.
  destruct (main_exchange _ _ _ _ _ Hin)
    as (file & contents & calls & frags & reads & tail & o & X & _ & _ & _ & D & E).
  exists (warnings None (positionals (scan (tl argv))) ++ FileGet file :: reads), tail.
  rewrite E. cbn [fst snd]. split; [|split].
  - now rewrite <- app_assoc.
  - rewrite files_written_app, files_written_warnings. cbn [app files_written].
    rewrite files_written_app, (files_written_reads _ (ex_reads _ _ _ _ _ _ _ X)).
    reflexivity.
  - exact D.
Qed.

Lemma verdict_code server_data :
  snd (verdict server_data)
  = Exit (if (getStatus server_data =? 0)%Z then 0 else 1).
Proof. unfold verdict. now destruct (getStatus server_data =? 0)%Z. Qed.

Lemma verdict_failed server_data :
  getStatus server_data <> 0%Z ->
  verdict server_data
  = ([Cerr (status_msg (getErrorMessage server_data) (getStatus server_data))],
     Exit 1).
Proof.
  intros H. unfold verdict.
  destruct (Z.eqb_spec (getStatus server_data) 0); [contradiction|reflexivity].
Qed.

(** A run that reaches the exchange and can store the reply ends with
    the verdict on its status. *)
Lemma main_verdict argv h p v client_data :
  In (Send h p v client_data) (fst (main argv)) ->
  output_prefix (scan (tl argv)) <> None
  \/ blobs (Client_send h p v client_data) = [] ->
  snd (main argv) = snd (verdict (Client_send h p v client_data))
  /\ exists tr,
      fst (main argv) = tr ++ fst (verdict (Client_send h p v client_data)).
Proof.
  intros Hin Hcan.
  destruct (main_delivers _ _ _ _ _ Hin) as (tr & tail & E & _ & D).
  rewrite E. destruct (output_prefix (scan (tl argv))) as [prefix|].
  - rewrite deliver_some in D. injection D as <- <-. split; [reflexivity|].
    exists (tr ++ Send h p v client_data
               :: file_puts (stored prefix (Client_send h p v client_data))).
    now rewrite <- app_assoc.
  - destruct Hcan as [Hcan|Hcan]; [contradiction|].
    rewrite deliver_none, Hcan in D. injection D as <- <-.
    split; [reflexivity|].
    exists (tr ++ [Send h p v client_data]). now rewrite <- app_assoc.
Qed.

(** The files written are the non-empty blobs of the reply under the
    output prefix, none without a prefix. *)
Lemma main_stores argv h p v client_data :
  In (Send h p v client_data) (fst (main argv)) ->
  files_written (fst (main argv))
  = match output_prefix (scan (tl argv)) with
    | Some prefix => stored prefix (Client_send h p v client_data)
    | None => []
    end.
Proof.
  intros Hin.
  destruct (main_delivers _ _ _ _ _ Hin) as (tr & tail & _ & -> & D).
  destruct (output_prefix (scan (tl argv))) as [prefix|].
  - rewrite deliver_some in D. injection D as <- _.
    now rewrite files_written_app, files_written_puts, files_written_verdict,
      app_nil_r.
  - rewrite deliver_none in D.
    destruct (blobs (Client_send h p v client_data)); injection D as <- _;
      [apply files_written_verdict | reflexivity].
Qed.


(** C1, amended: a reply with a non-zero status is stored like any
    other: no file is written when its five blobs are all empty, and
    with an output prefix every non-empty blob is written under it; in
    both cases the error message is then printed on [std::cerr] and the
    exit code is 1. *)
Theorem failed_reply_is_stored_then_reported argv h p v client_data :
  In (Send h p v client_data) (fst (main argv)) ->
  getStatus (Client_send h p v client_data) <> 0%Z ->
  (blobs (Client_send h p v client_data) = [] ->
   files_written (fst (main argv)) = [])
  /\ (forall prefix,
        output_prefix (scan (tl argv)) = Some prefix ->
        files_written (fst (main argv))
        = stored prefix (Client_send h p v client_data))
  /\ (output_prefix (scan (tl argv)) <> None
      \/ blobs (Client_send h p v client_data) = [] ->
      snd (main argv) = Exit 1
      /\ exists tr,
          fst (main argv)
          = tr ++ [Cerr (status_msg
                           (getErrorMessage (Client_send h p v client_data))
                           (getStatus (Client_send h p v client_data)))]).
Proof.
  intros Hin Hs. rewrite (main_stores _ _ _ _ _ Hin).
  split; [|split].
  { intros Hb. destruct (output_prefix (scan (tl argv))); [|reflexivity].
    unfold stored. now rewrite Hb. }
  { intros prefix ->. reflexivity. }
  intros Hcan. destruct (main_verdict _ _ _ _ _ Hin Hcan) as [Ho [tr Htr]].
  rewrite (verdict_failed _ Hs) in Ho, Htr. split; [exact Ho|]. now exists tr.
Qed.

(** C2, amended: a command line with both [--override] and [--augment]
    never gets beyond the option loop: no file is read, nothing is sent
    or written, and the exit code is 0 or 1; when every word before the
    second of the two is one the loop passes, the run ends there with
    the message about exclusive options, the usage and exit code 1; a
    command line with at most one of the two never gets that message. *)
Theorem exclusive_options_are_rejected argv :
  (given "--override" (scan (tl argv)) = true ->
   given "--augment" (scan (tl argv)) = true ->
   forallb is_console (fst (main argv)) = true
   /\ (snd (main argv) = Exit 0 \/ snd (main argv) = Exit 1))
  /\ (forall first second pre post,
        exclusive_pair first second ->
        scan (tl argv) = pre ++ WFlag second :: post ->
        In (WFlag first) pre ->
        forallb passes pre = true ->
        exists warns,
          main argv
          = (warns ++ [Cerr exclusive_msg; Cerr usage_text], Exit 1)
          /\ forallb is_warning warns = true)
  /\ (given "--override" (scan (tl argv)) && given "--augment" (scan (tl argv))
      = false ->
      ~ In (Cerr exclusive_msg) (fst (main argv))).
Proof.
  split; [|split].
  - intros Ho Ha.
    destruct (parse_args initial (tl argv)) as [warns [l|o]] eqn:P.
    + pose proof (parse_args_exclusive _ _ _ _ P eq_refl) as Hx.
      apply parse_args_go in P.
      destruct P as (_ & _ & _ & Ho' & Ha' & _).
      cbn [initial override augment orb] in Ho', Ha'.
      rewrite Ho', Ha', Ho, Ha in Hx. discriminate.
    + rewrite (main_halt _ _ _ P). cbn [fst snd].
      destruct (parse_args_console _ _ _ _ P) as [Hc Hcode]. split; [exact Hc|].
      now apply Hcode.
  - intros first second pre post Hpair Hscan Hfirst Hpass.
    destruct (parse_args_reject _ _ Hpair _ initial _ _ Hscan Hpass
                (or_intror Hfirst)) as [warns [P Hw]].
    exists warns. split; [|exact Hw]. now apply main_halt.
  - intros Hnot Hin. apply complains_In in Hin.
    destruct (parse_args initial (tl argv)) as [warns [l|o]] eqn:P.
    + destruct (main_go _ _ _ P) as (tr & o & R & E). rewrite E in Hin.
      cbn [fst] in Hin. rewrite complains_app in Hin.
      rewrite (is_plain_complains _ (proj1 (run_plain _ _ _ R))), orb_false_r in Hin.
      apply (parse_args_complains _ _ _ _ P) in Hin. cbn [initial override augment orb] in Hin.
      congruence.
    + rewrite (main_halt _ _ _ P) in Hin. cbn [fst] in Hin.
      apply (parse_args_complains _ _ _ _ P) in Hin. cbn [initial override augment orb] in Hin.
      congruence.
Qed.

(** C3: the fragment list of the request holds one fragment for each
    [--config] and [--config-expr] option, in the order of the command
    line, the contents of the file for a [--config] and the text for a
    [--config-expr]; the calls that add them are made in that order,
    between the network and the variables. *)
Theorem fragments_follow_the_options argv h p v client_data :
  In (Send h p v client_data) (fst (main argv)) ->
  map Some (fragments (request_model client_data))
  = map (fragment_of fileGetContents) (config_options (scan (tl argv)))
  /\ length (fragments (request_model client_data))
     = length (config_options (scan (tl argv)))
  /\ exists contents calls last_calls,
      client_data = setNetwork contents :: calls ++ last_calls
      /\ map Some calls
         = map (config_call fileGetContents) (config_options (scan (tl argv)))
      /\ existsb is_fragment_call last_calls = false.
Proof.
  intros Hin.
  destruct (main_exchange _ _ _ _ _ Hin)
    as (file & contents & calls & frags & reads & tail & o & X & C & R & _).
  rewrite R. cbn [fragments].
  pose proof (ex_frags _ _ _ _ _ _ _ X) as Hf. split; [exact Hf|]. split.
  - apply (f_equal (@length _)) in Hf. now rewrite !length_map in Hf.
  - exists contents, calls. eexists. split; [exact C|].
    split; [exact (ex_calls _ _ _ _ _ _ _ X) | reflexivity].
Qed.

(** C4, amended: the variable-override string of the request is the
    comma-join of the arguments of the [--config-vars] options in
    command-line order once the empty arguments at the head are left
    out; it is set by one call that comes after the network and every
    configuration call, wherever the options stood. *)
Theorem config_vars_are_joined_and_set_last argv h p v client_data :
  In (Send h p v client_data) (fst (main argv)) ->
  variableOverrides (request_model client_data)
  = comma_join (drop_leading_empty (config_vars_arguments (scan (tl argv))))
  /\ exists contents calls command_ flags_,
      client_data
      = setNetwork contents :: calls
          ++ [setConfigVars
                (comma_join (drop_leading_empty
                               (config_vars_arguments (scan (tl argv)))));
              setCommand command_; setFlags flags_]
      /\ forallb is_fragment_call calls = true
      /\ length calls = length (config_options (scan (tl argv))).
Proof.
  intros Hin.
  destruct (main_exchange _ _ _ _ _ Hin)
    as (file & contents & calls & frags & reads & tail & o & X & C & R & _).
  split; [now rewrite R|].
  exists contents, calls. eexists. eexists. split; [exact C|].
  pose proof (ex_calls _ _ _ _ _ _ _ X) as Hc. split.
  - destruct (request_model_calls _ _ _ empty_request Hc) as (_ & _ & Hk & _).
    exact Hk.
  - apply (f_equal (@length _)) in Hc. now rewrite !length_map in Hc.
Qed.



(** C7: the flags word of the request is the bitwise or of those of
    [HEXFLOAT_FLAG], [OVERRIDE_FLAG] and [AUGMENT_FLAG] whose option was
    given; bit by bit, a bit is set exactly when it is set in the flag of
    a given option; [--override] and [--augment] are not both given. *)
Theorem flags_are_the_given_options argv h p v client_data :
  In (Send h p v client_data) (fst (main argv)) ->
  flags (request_model client_data) = requested_flags (scan (tl argv))
  /\ (forall i,
        Z.testbit (flags (request_model client_data)) i
        = (given "--hexfloat" (scan (tl argv)) && Z.testbit HEXFLOAT_FLAG i)
          || (given "--override" (scan (tl argv)) && Z.testbit OVERRIDE_FLAG i)
          || (given "--augment" (scan (tl argv)) && Z.testbit AUGMENT_FLAG i))
  /\ given "--override" (scan (tl argv)) && given "--augment" (scan (tl argv))
     = false.
Proof.
  intros Hin.
  destruct (main_exchange _ _ _ _ _ Hin)
    as (file & contents & calls & frags & reads & tail & o & X & _ & R & Hx & _).
  rewrite R. cbn [flags]. split; [reflexivity|]. split; [|exact Hx].
  intros i. unfold requested_flags. rewrite !Z.lor_spec.
  destruct (given "--hexfloat" (scan (tl argv))),
    (given "--override" (scan (tl argv))),
    (given "--augment" (scan (tl argv)));
    rewrite ?Z.bits_0, ?andb_true_l, ?andb_false_l, ?orb_false_r, ?orb_false_l,
      ?orb_assoc;
    reflexivity.
Qed.

(** C8, amended: the network of every request sent is the contents of
    the file named by the first positional argument, read with success
    before the exchange; nothing requires these contents to be
    non-empty. *)
Theorem network_is_the_file_read argv h p v client_data :
  In (Send h p v client_data) (fst (main argv)) ->
  exists file,
    hd_error (positionals (scan (tl argv))) = Some file
    /\ fileGetContents file = Some (network (request_model client_data))
    /\ exists before between after,
        fst (main argv)
        = before ++ FileGet file :: between
            ++ Send h p v client_data :: after.
Proof.
  intros Hin.
  destruct (main_exchange _ _ _ _ _ Hin)
    as (file & contents & calls & frags & reads & tail & o & X & _ & R & _ & _ & E).
  exists file. rewrite R, E. cbn [network fst].
  split; [exact (ex_file _ _ _ _ _ _ _ X)|].
  split; [exact (ex_contents _ _ _ _ _ _ _ X)|].
  now exists (warnings None (positionals (scan (tl argv)))), reads, tail.
Qed.

(** C9: without [-o] or [--output] the variable [output] stays a null
    pointer and nothing checks it: the exchange is reached, with the
    same request, exactly as it is when a prefix is given; and a run
    that reaches the exchange and receives a non-empty blob builds the
    name of the file from that null pointer, before any file is
    written. *)
Theorem missing_output_prefix_is_not_checked argv :
  output_arguments (scan (tl argv)) = [] ->
  (forall warns l,
      parse_args initial (tl argv) = (warns, Go l) -> output l = None)
  /\ (forall prefix h p v client_data,
        In (Send h p v client_data)
           (fst (main (hd "" argv :: "-o" :: prefix :: tl argv)))
        <-> In (Send h p v client_data) (fst (main argv)))
  /\ (forall h p v client_data,
        In (Send h p v client_data) (fst (main argv)) ->
        blobs (Client_send h p v client_data) <> [] ->
        snd (main argv) = NullString
        /\ files_written (fst (main argv)) = []
        /\ exists tr, fst (main argv) = tr ++ [Send h p v client_data]).
Proof.
  intros Hout. split; [|split].
  - intros warns l P. apply parse_args_go in P.
    destruct P as (_ & _ & _ & _ & _ & _ & _ & -> & _).
    now rewrite Hout.
  - intros prefix h p v client_data. now apply main_with_output.
  - intros h p v client_data Hin Hb.
    destruct (main_delivers _ _ _ _ _ Hin) as (tr & tail & E & F & D).
    unfold output_prefix in D. rewrite Hout in D. cbn [map last] in D.
    rewrite deliver_none in D.
    destruct (blobs (Client_send h p v client_data)); [contradiction|].
    injection D as <- <-. rewrite F. repeat split. now exists tr.
Qed.


End Claims.

(** ** The client in the small world *)

(** The scenario of the spec: network [A -> B;], no fragment, command
    RUN, flags 0, a reply with the probability trajectory alone and
    status 0. *)
Example run_writes_probtraj :
  main 1 2 4 example_files (always reply_ok) argv_plain
  = ([FileGet "net.bnd";
      Send "" "4291" false request_plain;
      FilePut "out_probtraj.csv" "t,A,B"],
     Exit 0).
Proof. reflexivity. Qed.

Example run_with_everything :
  main 1 2 4 example_files (always reply_ok) argv_run
  = ([Cerr (already_set_msg "net.bnd" "extra.bnd");
      FileGet "net.bnd"; FileGet "run.cfg";
      Send "" "4291" false request_run;
      FilePut "out_probtraj.csv" "t,A,B"],
     Exit 0).
Proof. reflexivity. Qed.

Example version_is_answered :
  main 1 2 4 example_files (always reply_ok) ["MaBoSS-client"; "-version"; "net.bnd"]
  = ([Cout version_text], Exit 0).
Proof. reflexivity. Qed.

Example port_without_value :
  main 1 2 4 example_files (always reply_ok) ["MaBoSS-client"; "net.bnd"; "--port"]
  = ([ArgMissing "--port"; Cerr usage_text], Exit 1).
Proof. reflexivity. Qed.

Example short_config_vars_is_unknown :
  main 1 2 4 example_files (always reply_ok) ["MaBoSS-client"; "-v"; "k=1"]
  = ([Cerr (unknown_option_msg "-v"); Cerr usage_text], Exit 1).
Proof. reflexivity. Qed.

Example network_file_is_required :
  main 1 2 4 example_files (always reply_ok) ["MaBoSS-client"; "--port"; "4291"]
  = ([Cerr network_missing_msg; Cerr usage_text], Exit 1).
Proof. reflexivity. Qed.

Example unreadable_config_file :
  main 1 2 4 example_files (always reply_ok)
       ["MaBoSS-client"; "--port"; "4291"; "net.bnd"; "-c"; "none.cfg"]
  = ([FileGet "net.bnd"; FileGet "none.cfg"], Exit 1).
Proof. reflexivity. Qed.

(** ** The claims in the small world *)

Ltac in_trace := vm_compute; repeat (first [left; reflexivity | right]).

(** C1 fails as stated: the reply has status 1 and a run log, and the
    run log is written to [out_run.txt] before the error is reported. *)
Lemma failed_reply_blob_is_written :
  In (Send "" "4291" false request_plain)
     (fst (main 1 2 4 example_files (always reply_failed) argv_plain))
  /\ getStatus (always reply_failed "" "4291" false request_plain) <> 0%Z
  /\ files_written (fst (main 1 2 4 example_files (always reply_failed) argv_plain))
     = [("out_run.txt", "partial")]
  /\ files_written (fst (main 1 2 4 example_files (always reply_failed) argv_plain))
     <> [].
Proof.
  split; [in_trace|]. split; [discriminate|]. split; [reflexivity|].
  vm_compute. discriminate.
Qed.

Lemma failed_reply_is_stored_then_reported_witness :
  In (Send "" "4291" false request_plain)
     (fst (main 1 2 4 example_files (always reply_failed) argv_plain))
  /\ getStatus (always reply_failed "" "4291" false request_plain) <> 0%Z
  /\ (output_prefix (scan (tl argv_plain)) <> None
      \/ blobs (always reply_failed "" "4291" false request_plain) = [])
  /\ snd (main 1 2 4 example_files (always reply_failed) argv_plain) = Exit 1.
Proof.
  assert (Hin : In (Send "" "4291" false request_plain)
                  (fst (main 1 2 4 example_files (always reply_failed) argv_plain)))
    by in_trace.
  assert (Hs : getStatus (always reply_failed "" "4291" false request_plain) <> 0%Z)
    by discriminate.
  assert (Hp : output_prefix (scan (tl argv_plain)) <> None
               \/ blobs (always reply_failed "" "4291" false request_plain) = [])
    by (left; discriminate).
  split; [exact Hin|]. split; [exact Hs|]. split; [exact Hp|].
  exact (proj1 (proj2 (proj2
    (failed_reply_is_stored_then_reported 1 2 4 example_files (always reply_failed)
       argv_plain "" "4291" false request_plain Hin Hs)) Hp)).
Defined.

(** C2 fails as stated: both options are on the command line, and the
    client prints its help and returns 0. *)
Lemma help_between_exclusive_options :
  given "--override" (scan (tl argv_help_between)) = true
  /\ given "--augment" (scan (tl argv_help_between)) = true
  /\ main 1 2 4 example_files (always reply_ok) argv_help_between
     = ([Cout usage_text; Cout options_text], Exit 0).
Proof. repeat split. Qed.

Lemma exclusive_options_are_rejected_witness :
  exclusive_pair "--override" "--augment"
  /\ scan (tl argv_both)
     = [WFlag "--override"; WPos "net.bnd"; WPos "extra.bnd"]
         ++ WFlag "--augment" :: [WOpt "--port" "4291"]
  /\ In (WFlag "--override")
        [WFlag "--override"; WPos "net.bnd"; WPos "extra.bnd"]
  /\ forallb passes [WFlag "--override"; WPos "net.bnd"; WPos "extra.bnd"]
     = true
  /\ exists warns,
      main 1 2 4 example_files (always reply_ok) argv_both
      = (warns ++ [Cerr exclusive_msg; Cerr usage_text], Exit 1)
      /\ forallb is_warning warns = true.
Proof.
  assert (Hpair : exclusive_pair "--override" "--augment") by (left; split; reflexivity).
  split; [exact Hpair|]. split; [reflexivity|]. split; [left; reflexivity|].
  split; [reflexivity|].
  exact (proj1 (proj2
    (exclusive_options_are_rejected 1 2 4 example_files (always reply_ok) argv_both))
    "--override" "--augment"
    [WFlag "--override"; WPos "net.bnd"; WPos "extra.bnd"]
    [WOpt "--port" "4291"] Hpair eq_refl (or_introl eq_refl) eq_refl).
Defined.

Lemma fragments_follow_the_options_witness :
  In (Send "" "4291" false request_run)
     (fst (main 1 2 4 example_files (always reply_ok) argv_run))
  /\ map Some (fragments (request_model request_run))
     = map (fragment_of example_files) (config_options (scan (tl argv_run)))
  /\ length (fragments (request_model request_run))
     = length (config_options (scan (tl argv_run)))
  /\ exists contents calls last_calls,
      request_run = setNetwork contents :: calls ++ last_calls
      /\ map Some calls
         = map (config_call example_files) (config_options (scan (tl argv_run)))
      /\ existsb is_fragment_call last_calls = false.
Proof.
  split; [in_trace|].
  apply (fragments_follow_the_options 1 2 4 example_files (always reply_ok)
           argv_run "" "4291" false request_run).
  in_trace.
Defined.

(** C4 fails as stated: the arguments are the empty string and [A=1],
    their comma-join is [,A=1], and the request carries [A=1]. *)
Lemma empty_argument_is_not_joined :
  In (Send "" "4291" false request_empty_var)
     (fst (main 1 2 4 example_files (always reply_ok) argv_empty_var))
  /\ config_vars_arguments (scan (tl argv_empty_var)) = [""; "A=1"]
  /\ comma_join (config_vars_arguments (scan (tl argv_empty_var))) = ",A=1"
  /\ variableOverrides (request_model request_empty_var) = "A=1"
  /\ variableOverrides (request_model request_empty_var)
     <> comma_join (config_vars_arguments (scan (tl argv_empty_var))).
Proof.
  split; [in_trace|]. repeat split. vm_compute. discriminate.
Qed.

Lemma config_vars_are_joined_and_set_last_witness :
  In (Send "" "4291" false request_run)
     (fst (main 1 2 4 example_files (always reply_ok) argv_run))
  /\ variableOverrides (request_model request_run)
     = comma_join (drop_leading_empty
                     (config_vars_arguments (scan (tl argv_run)))).
Proof.
  assert (Hin : In (Send "" "4291" false request_run)
                  (fst (main 1 2 4 example_files (always reply_ok) argv_run)))
    by in_trace.
  split; [exact Hin|].
  exact (proj1 (config_vars_are_joined_and_set_last 1 2 4 example_files
                  (always reply_ok) argv_run "" "4291" false request_run Hin)).
Defined.



(** With the prefix [out] the same reply is reported, in these words. *)
Example failed_reply_is_reported :
  main 1 2 4 example_files (always reply_failed) argv_plain
  = ([FileGet "net.bnd"; Send "" "4291" false request_plain;
      FilePut "out_run.txt" "partial";
      Cerr ("MaBoSS-client error: [unknown node C] [status=1]" ++ nl)],
     Exit 1).
Proof. reflexivity. Qed.


Lemma flags_are_the_given_options_witness :
  In (Send "" "4291" false request_run)
     (fst (main 1 2 4 example_files (always reply_ok) argv_run))
  /\ flags (request_model request_run) = requested_flags 1 2 4 (scan (tl argv_run)).
Proof.
  assert (Hin : In (Send "" "4291" false request_run)
                  (fst (main 1 2 4 example_files (always reply_ok) argv_run)))
    by in_trace.
  split; [exact Hin|].
  exact (proj1 (flags_are_the_given_options 1 2 4 example_files (always reply_ok)
                  argv_run "" "4291" false request_run Hin)).
Defined.

(** C8 fails as stated: the network file is empty, and the request is
    sent with an empty network. *)
Lemma empty_network_is_sent :
  In (Send "" "4291" false request_empty_network)
     (fst (main 1 2 4 example_files (always reply_ok) argv_empty_network))
  /\ network (request_model request_empty_network) = "".
Proof. split; [in_trace | reflexivity]. Qed.

Lemma network_is_the_file_read_witness :
  In (Send "" "4291" false request_run)
     (fst (main 1 2 4 example_files (always reply_ok) argv_run))
  /\ exists file,
      hd_error (positionals (scan (tl argv_run))) = Some file
      /\ example_files file = Some (network (request_model request_run))
      /\ exists before between after,
          fst (main 1 2 4 example_files (always reply_ok) argv_run)
          = before ++ FileGet file :: between
              ++ Send "" "4291" false request_run :: after.
Proof.
  assert (Hin : In (Send "" "4291" false request_run)
                  (fst (main 1 2 4 example_files (always reply_ok) argv_run)))
    by in_trace.
  split; [exact Hin|].
  exact (network_is_the_file_read 1 2 4 example_files (always reply_ok)
           argv_run "" "4291" false request_run Hin).
Defined.

Lemma missing_output_prefix_is_not_checked_witness :
  output_arguments (scan (tl argv_no_output)) = []
  /\ In (Send "" "4291" false request_plain)
        (fst (main 1 2 4 example_files (always reply_ok) argv_no_output))
  /\ blobs (always reply_ok "" "4291" false request_plain) <> []
  /\ snd (main 1 2 4 example_files (always reply_ok) argv_no_output) = NullString
  /\ files_written (fst (main 1 2 4 example_files (always reply_ok) argv_no_output))
     = []
  /\ exists tr,
      fst (main 1 2 4 example_files (always reply_ok) argv_no_output)
      = tr ++ [Send "" "4291" false request_plain].
Proof.
  assert (Hin : In (Send "" "4291" false request_plain)
                  (fst (main 1 2 4 example_files (always reply_ok) argv_no_output)))
    by in_trace.
  assert (Hb : blobs (always reply_ok "" "4291" false request_plain) <> [])
    by (vm_compute; discriminate).
  split; [reflexivity|]. split; [exact Hin|]. split; [exact Hb|].
  exact (proj2 (proj2 (missing_output_prefix_is_not_checked 1 2 4 example_files
                         (always reply_ok) argv_no_output eq_refl))
           "" "4291" false request_plain Hin Hb).
Defined.


(** * The rest of the client *)

Lemma warnings_nil file : warnings file [] = [].
Proof. now destruct file. Qed.

Ltac neq_in H opt :=
  repeat match goal with
         | n : opt <> ?s |- _ =>
             apply String.eqb_neq in n; rewrite ?n in H; clear n
         end.

(** The option loop stops at the first word that makes it return. *)
Lemma parse_args_stops : forall args l pre w post evs code,
  scan args = pre ++ w :: post ->
  forallb passes pre = true ->
  compatible l pre = true ->
  stops w = Some (evs, code) ->
  parse_args l args
  = (warnings (ctbndl_file l) (positionals pre) ++ evs, Halt (Exit code)).
Proof.
  induction args as [|opt rest IH IH2] using args_ind;
    intros l pre w post evs code Hscan Hpass Hc Hstop.
  - destruct pre; discriminate.
  - simpl in Hscan. simpl parse_args. destruct (is_option opt) eqn:Hopt.
    + unfold takes_value, existsb in Hscan. revert Hscan.
      destruct pre as [|w' pre]; simpl in Hpass |- *.
      * (* the word at hand stops the loop *)
        rewrite warnings_nil. cbn [app].
        split_opt opt; simpl.
        all: try (destruct rest as [|v rest']).
        all: intros E; injection E as <- E;
          unfold stops, passes, existsb in Hstop; neq_in Hstop opt;
          simpl in Hstop; try discriminate;
          injection Hstop as <- <-; reflexivity.
      * apply andb_prop in Hpass as [Hw Hpass].
        split_opt opt; simpl.
        all: try (intros E; injection E as <- E; discriminate).
        all: try (destruct rest as [|v rest'];
                  [intros E; injection E as _ E; destruct pre; discriminate|];
                  intros E; injection E as <- E;
                  match goal with
                  | |- parse_args ?l' _ = _ =>
                      exact (IH2 _ _ eq_refl l' _ _ _ _ _ E Hpass Hc Hstop)
                  end).
        all: try (intros E; injection E as <- E;
                  match goal with
                  | |- parse_args ?l' _ = _ =>
                      exact (IH l' _ _ _ _ _ E Hpass Hc Hstop)
                  end).
        -- intros E; injection E as <- E.
           unfold compatible in Hc. cbn [given existsb String.eqb Ascii.eqb Bool.eqb] in Hc.
           simpl in Hc. rewrite orb_true_r in Hc.
           destruct (augment l) eqn:Ha; [discriminate|].
           apply (IH (set_override l) _ _ _ _ _ E Hpass); [|exact Hstop].
           unfold compatible. simpl. now rewrite Ha.
        -- intros E; injection E as <- E.
           unfold compatible in Hc. simpl in Hc. rewrite orb_true_r in Hc.
           destruct (override l) eqn:Ho; [discriminate|].
           apply (IH (set_augment l) _ _ _ _ _ E Hpass); [|exact Hstop].
           unfold compatible. simpl. now rewrite Ho.
        -- intros E; injection E as <- E. exfalso.
           unfold passes, existsb in Hw. neq_in Hw opt. discriminate.
    + destruct pre as [|w' pre]; [injection Hscan as <- _; discriminate|].
      injection Hscan as <- Hscan. simpl in Hpass.
      assert (Hc' : forall l', override l' = override l -> augment l' = augment l ->
                               compatible l' pre = true)
        by (intros l' Ho Ha; unfold compatible in *; now rewrite Ho, Ha).
      destruct (ctbndl_file l) as [file|] eqn:Hf.
      * rewrite (IH l _ _ _ _ _ Hscan Hpass (Hc' l eq_refl eq_refl) Hstop).
        now rewrite Hf.
      * rewrite (IH (set_ctbndl_file opt l) _ _ _ _ _ Hscan Hpass
                   (Hc' _ eq_refl eq_refl) Hstop).
        reflexivity.
Qed.


(** The option loop gets through a command line all of whose words it
    passes and that does not ask for both exclusive options. *)
Lemma parse_args_passes : forall args l,
  forallb passes (scan args) = true ->
  compatible l (scan args) = true ->
  exists l',
    parse_args l args
    = (warnings (ctbndl_file l) (positionals (scan args)), Go l').
Proof.
  induction args as [|opt rest IH IH2] using args_ind; intros l.
  - intros _ _. exists l. now rewrite warnings_nil.
  - simpl scan. simpl parse_args. destruct (is_option opt) eqn:Hopt.
    + unfold takes_value, existsb. split_opt opt; simpl.
      all: try discriminate.
      all: try (destruct rest as [|v rest']; [discriminate|];
                intros Hpass Hc;
                match goal with
                | |- exists _, parse_args ?l' _ = _ =>
                    exact (IH2 _ _ eq_refl l' Hpass Hc)
                end).
      all: try (intros Hpass Hc;
                match goal with
                | |- exists _, parse_args ?l' _ = _ => exact (IH l' Hpass Hc)
                end).
      * intros Hpass Hc. unfold compatible in Hc. simpl in Hc.
        rewrite orb_true_r in Hc.
        destruct (augment l) eqn:Ha; [discriminate|].
        apply (IH (set_override l) Hpass). unfold compatible. simpl. now rewrite Ha.
      * intros Hpass Hc. unfold compatible in Hc. simpl in Hc.
        rewrite orb_true_r in Hc.
        destruct (override l) eqn:Ho; [discriminate|].
        apply (IH (set_augment l) Hpass). unfold compatible. simpl. now rewrite Ho.
      * unfold passes, existsb.
        repeat match goal with
               | n : opt <> ?s |- _ =>
                   apply String.eqb_neq in n; rewrite ?n; clear n
               end.
        discriminate.
    + simpl. intros Hpass Hc.
      destruct (ctbndl_file l) as [file|] eqn:Hf.
      * destruct (IH l Hpass Hc) as [l' E]. exists l'. rewrite E, Hf. reflexivity.
      * exact (IH (set_ctbndl_file opt l) Hpass Hc).
Qed.

(** The endpoint and the verbosity the option loop ends with. *)
Lemma parse_args_endpoint : forall args l tr l',
  parse_args l args = (tr, Go l') ->
  port l' = fold_left (fun _ v => v) (port_arguments (scan args)) (port l)
  /\ host l' = fold_left (fun _ v => v) (host_arguments (scan args)) (host l)
  /\ verbose l' = verbose l || given "--verbose" (scan args).
Proof.
  induction args as [|opt rest IH IH2] using args_ind; intros l tr l' H.
  - injection H as _ <-. simpl. now rewrite orb_false_r.
  - simpl in H. simpl scan. destruct (is_option opt) eqn:Hopt.
    + unfold takes_value, existsb. revert H. split_opt opt; simpl.
      all: try discriminate.
      all: try (destruct rest as [|v rest']; [discriminate|]; intros H;
                apply (IH2 _ _ eq_refl) in H; exact H).
      all: try (intros H; apply IH in H; simpl in H; exact H).
      * intros H; apply IH in H; simpl in H. now rewrite orb_true_r.
      * destruct (augment l); [discriminate|].
        intros H; apply IH in H; exact H.
      * destruct (override l); [discriminate|].
        intros H; apply IH in H; exact H.
    + simpl. destruct (ctbndl_file l) as [file|].
      * destruct (parse_args l rest) as [tr' r] eqn:E. injection H as _ ->.
        exact (IH _ _ _ E).
      * apply IH in H. exact H.
Qed.


Lemma fold_last {A} : forall (xs : list A) (d : A),
  fold_left (fun _ v => v) xs d = last xs d.
Proof.
  induction xs as [|x xs IH]; intros d; [reflexivity|].
  cbn [fold_left]. now rewrite IH, last_cons.
Qed.

(** A run of the option loop that stops ends with the version, with the
    help, or with the usage on the standard error after one message;
    before that it has at most warned. *)
Lemma parse_args_halts : forall args l tr o,
  parse_args l args = (tr, Halt o) ->
  exists warns,
    forallb is_warning warns = true
    /\ ((tr = warns ++ [Cout version_text] /\ o = Exit 0)
        \/ (tr = warns ++ [Cout usage_text; Cout options_text] /\ o = Exit 0)
        \/ (exists e, tr = warns ++ [e; Cerr usage_text]
                      /\ is_console e = true /\ is_cout e = false
                      /\ o = Exit 1)).
Proof.
  induction args as [|opt rest IH IH2] using args_ind; intros l tr o H.
  - discriminate.
  - simpl in H. destruct (is_option opt) eqn:Hopt.
    + revert H. split_opt opt; simpl.
      all: try (destruct rest as [|v rest']; [|apply (IH2 _ _ eq_refl)]).
      all: try (apply IH; fail).
      all: try (destruct (augment l); [|apply IH]).
      all: try (destruct (override l); [|apply IH]).
      all: intros H; injection H as <- <-; exists []; split; [reflexivity|];
        first [ left; split; reflexivity
              | right; left; split; reflexivity
              | right; right; eexists; repeat split; reflexivity ].
    + destruct (ctbndl_file l) as [file|]; [|now apply IH in H].
      destruct (parse_args l rest) as [tr' r'] eqn:E. injection H as <- ->.
      apply IH in E. destruct E as [warns [Hw E]].
      exists (Cerr (already_set_msg file opt) :: warns). split.
      * cbn [forallb]. now rewrite is_warning_already_set.
      * destruct E as [[-> ->]|[[-> ->]|[e [-> E]]]]; [left|right; left|right; right];
          [split; reflexivity | split; reflexivity | exists e; split; [reflexivity|exact E]].
Qed.

Lemma warnings_are_warnings file ps :
  forallb is_warning (warnings file ps) = true.
Proof.
  destruct file as [f|]; [|destruct ps as [|f ps]; [reflexivity|]];
    simpl; induction ps; simpl; auto.
Qed.

Lemma file_gets files : forallb is_file_get (map FileGet files) = true.
Proof. induction files; simpl; auto. Qed.

Lemma forallb_weaken {A} (p q : A -> bool) (l : list A) :
  (forall x, p x = true -> q x = true) ->
  forallb p l = true -> forallb q l = true.
Proof.
  intros Hpq. induction l as [|x l IH]; [reflexivity|].
  cbn [forallb]. intros H. apply andb_prop in H as [Hx Hl].
  now rewrite (Hpq _ Hx), IH.
Qed.

Lemma is_warning_console e : is_warning e = true -> is_console e = true.
Proof. now destruct e. Qed.

Lemma is_console_before e : is_console e = true -> is_before_exchange e = true.
Proof. unfold is_before_exchange. now intros ->. Qed.

Lemma before_no_send tr h p v client_data :
  forallb is_before_exchange tr = true -> ~ In (Send h p v client_data) tr.
Proof. intros H Hin. apply (forallb_In _ _ _ H) in Hin. discriminate. Qed.

Lemma warnings_before file ps :
  forallb is_before_exchange (warnings file ps) = true.
Proof.
  apply (forallb_weaken is_warning); [|apply warnings_are_warnings].
  intros e H. now apply is_console_before, is_warning_console.
Qed.

Lemma file_gets_before files :
  forallb is_before_exchange (map FileGet files) = true.
Proof. induction files; simpl; auto. Qed.

(** None of the calls the configuration options end up as sets the
    command. *)
Lemma config_calls_no_command fileGetContents : forall cfgs calls,
  map Some calls = map (config_call fileGetContents) cfgs ->
  filter is_set_command calls = [].
Proof.
  induction cfgs as [|cfg cfgs IH]; intros [|c calls] H; try discriminate;
    [reflexivity|].
  injection H as Hc H. cbn [filter]. rewrite (IH _ H).
  unfold config_call in Hc. destruct (isExpr cfg).
  - injection Hc as ->. reflexivity.
  - destruct (fileGetContents (file_or_expr cfg)); [|discriminate].
    injection Hc as ->. reflexivity.
Qed.



Lemma last_app_cons {A} (l : list A) (x : A) (l' : list A) (d : A) :
  last (l ++ x :: l') d = last (x :: l') d.
Proof.
  induction l as [|y l IH]; [reflexivity|].
  rewrite <- IH. now destruct l.
Qed.

Lemma last_forallb {A} (p : A -> bool) (x : A) (l : list A) (d : A) :
  forallb p (x :: l) = true -> p (last (x :: l) d) = true.
Proof.
  revert x. induction l as [|y l IH]; intros x H.
  - cbn [forallb] in H. now apply andb_prop in H as [H _].
  - change (last (x :: y :: l) d) with (last (y :: l) d).
    apply IH. cbn [forallb] in H |- *. now apply andb_prop in H as [_ H].
Qed.

Lemma append_inj (s t u : string) : (s ++ t = s ++ u)%string -> t = u.
Proof.
  induction s as [|c s IH]; [auto|]. simpl. intros H. injection H as H. auto.
Qed.

(** The files of a reply have different names, and there are at most
    five of them. *)
Lemma stored_distinct prefix server_data :
  NoDup (map fst (stored prefix server_data))
  /\ (length (stored prefix server_data) <= 5)%nat.
Proof.
  unfold stored, blobs. cbn [filter snd].
  destruct (nonempty (getTraj server_data)),
           (nonempty (getRunLog server_data)),
           (nonempty (getProbTraj server_data)),
           (nonempty (getStatDist server_data)),
           (nonempty (getFP server_data));
    cbn [map fst length]; (split; [|lia]);
    repeat (constructor;
            [cbn [In]; intros H;
             repeat (destruct H as [H|H];
                     [apply append_inj in H; discriminate|]);
             exact H|]);
    constructor.
Qed.

Section More.

Variables HEXFLOAT_FLAG OVERRIDE_FLAG AUGMENT_FLAG : Z.
Variable fileGetContents : string -> option string.
Variable Client_send : string -> string -> bool -> ClientData -> ServerData.

Local Abbreviation flags_of := (flags_of HEXFLOAT_FLAG OVERRIDE_FLAG AUGMENT_FLAG).
Local Abbreviation request_of := (request_of HEXFLOAT_FLAG OVERRIDE_FLAG AUGMENT_FLAG).
Local Abbreviation requested_flags := (requested_flags HEXFLOAT_FLAG OVERRIDE_FLAG AUGMENT_FLAG).
Local Abbreviation run := (run HEXFLOAT_FLAG OVERRIDE_FLAG AUGMENT_FLAG fileGetContents Client_send).
Local Abbreviation main := (main HEXFLOAT_FLAG OVERRIDE_FLAG AUGMENT_FLAG fileGetContents Client_send).

(** The configuration loop reads the files of the [--config] options in
    order and gives up at the first it cannot read. *)
Lemma add_configs_reads : forall v client_data,
  fst (add_configs fileGetContents client_data v)
  = map FileGet (files_tried fileGetContents (files_of v))
  /\ match snd (add_configs fileGetContents client_data v) with
     | Go _ => readable fileGetContents (files_of v) = true
     | Halt o => o = Exit 1 /\ readable fileGetContents (files_of v) = false
     end.
Proof.
  induction v as [|cfg v IH]; intros client_data; [split; reflexivity|].
  simpl. destruct (isExpr cfg); [apply IH|].
  unfold getFile, readable. cbn [files_tried forallb map].
  destruct (fileGetContents (file_or_expr cfg)) as [contents|];
    cbn [is_some andb]; [|split; [reflexivity | split; reflexivity]].
  specialize (IH (call client_data (addConfig contents))).
  unfold bind, emit.
  destruct (add_configs fileGetContents (call client_data (addConfig contents)) v)
    as [tr r].
  cbn [fst snd] in *. destruct IH as [-> IH]. split; [reflexivity|].
  destruct r; exact IH.
Qed.

(** [run] by what it meets on its way. *)
Lemma run_no_file l :
  ctbndl_file l = None ->
  run l = ([Cerr network_missing_msg; Cerr usage_text], Halt (Exit 1)).
Proof. unfold run. now intros ->. Qed.

Lemma run_no_port l file :
  ctbndl_file l = Some file -> port l = "" ->
  run l = ([Cerr port_missing_msg; Cerr usage_text], Halt (Exit 1)).
Proof. unfold run. now intros -> ->. Qed.

Lemma length_zero s : (String.length s =? 0)%nat = false <-> s <> "".
Proof. destruct s; simpl; split; congruence. Qed.

Lemma run_no_network l file :
  ctbndl_file l = Some file -> port l <> "" -> fileGetContents file = None ->
  run l = ([FileGet file], Halt (Exit 1)).
Proof.
  unfold run. intros -> Hp ->. apply length_zero in Hp. now rewrite Hp.
Qed.

Lemma run_no_config l file contents :
  ctbndl_file l = Some file -> port l <> "" ->
  fileGetContents file = Some contents ->
  readable fileGetContents (files_of (runconfig_file_or_expr_v l)) = false ->
  run l = (FileGet file
             :: map FileGet (files_tried fileGetContents
                               (files_of (runconfig_file_or_expr_v l))),
           Halt (Exit 1)).
Proof.
  unfold run. intros -> Hp -> Hr. apply length_zero in Hp. rewrite Hp.
  cbv zeta.
  destruct (add_configs_reads (runconfig_file_or_expr_v l)
              (call [] (setNetwork contents))) as [Htr Hs].
  destruct (add_configs fileGetContents (call [] (setNetwork contents))
              (runconfig_file_or_expr_v l)) as [tr [cd|o]];
    cbn [fst snd] in *; [congruence|].
  destruct Hs as [-> _]. subst tr. reflexivity.
Qed.

Lemma files_tried_readable files :
  readable fileGetContents files = true ->
  files_tried fileGetContents files = files.
Proof.
  unfold readable. induction files as [|f files IH]; [reflexivity|].
  cbn [forallb files_tried]. intros H. apply andb_prop in H as [-> H].
  now rewrite IH.
Qed.

Lemma run_exchange l file contents :
  ctbndl_file l = Some file -> port l <> "" ->
  fileGetContents file = Some contents ->
  readable fileGetContents (files_of (runconfig_file_or_expr_v l)) = true ->
  exists calls tail o,
    map Some calls
    = map (config_call fileGetContents) (runconfig_file_or_expr_v l)
    /\ deliver (output l)
         (Client_send (host l) (port l) (verbose l) (request_of l contents calls))
       = (tail, Halt o)
    /\ run l
       = (FileGet file
            :: map FileGet (files_of (runconfig_file_or_expr_v l))
            ++ Send (host l) (port l) (verbose l) (request_of l contents calls)
            :: tail,
          Halt o).
Proof.
  unfold run. intros -> Hp -> Hr. apply length_zero in Hp. rewrite Hp.
  cbv zeta.
  destruct (add_configs_reads (runconfig_file_or_expr_v l)
              (call [] (setNetwork contents))) as [Htr Hs].
  destruct (add_configs fileGetContents (call [] (setNetwork contents))
              (runconfig_file_or_expr_v l)) as [tr [cd|o]] eqn:E;
    cbn [fst snd] in *; [|destruct Hs; congruence].
  destruct (add_configs_spec _ _ _ _ _ E) as [_ (calls & Hcalls & ->)].
  rewrite (files_tried_readable _ Hr) in Htr. subst tr.
  assert (Hcd : call (call (call (call [] (setNetwork contents) ++ calls)
                   (setConfigVars (config_vars l)))
                   (setCommand (if check l then CHECK_COMMAND else RUN_COMMAND)))
                   (setFlags (flags_of l))
                = request_of l contents calls).
  { unfold request_of, call. simpl. now rewrite <- !app_assoc. }
  unfold bind, emit. rewrite Hcd.
  destruct (deliver (output l)
              (Client_send (host l) (port l) (verbose l)
                 (request_of l contents calls))) as [tail r] eqn:D.
  destruct (deliver_aftermath _ _ _ _ D) as [_ [o ->]].
  exists calls, tail, o. repeat split; auto.
Qed.

(** What the option loop leaves behind for a command line it accepts. *)
Lemma parse_args_accepted args :
  accepted (scan args) = true ->
  exists l,
    parse_args initial args
    = (warnings None (positionals (scan args)), Go l)
    /\ ctbndl_file l = hd_error (positionals (scan args))
    /\ port l = endpoint_port (scan args)
    /\ host l = endpoint_host (scan args)
    /\ verbose l = given "--verbose" (scan args)
    /\ runconfig_file_or_expr_v l = config_options (scan args)
    /\ config_vars l
       = comma_join (drop_leading_empty (config_vars_arguments (scan args)))
    /\ check l = given "--check" (scan args)
    /\ flags_of l = requested_flags (scan args)
    /\ output l = output_prefix (scan args).
Proof.
  unfold accepted. intros H. apply andb_prop in H as [Hp Hc].
  destruct (parse_args_passes args initial Hp Hc) as [l P].
  exists l. split; [exact P|].
  destruct (parse_args_endpoint _ _ _ _ P) as (Hport & Hhost & Hverbose).
  rewrite fold_last in Hport, Hhost.
  apply parse_args_go in P.
  destruct P as (Hcfg & Hvars & Hh & Ho & Ha & Hck & Hf & Hout & _ & _).
  simpl in Hcfg, Hvars, Hh, Ho, Ha, Hck, Hf, Hout, Hport, Hhost, Hverbose.
  rewrite fold_config_vars in Hvars. rewrite fold_last_output in Hout.
  repeat split; auto.
  apply flags_of_requested; assumption.
Qed.


(** [main] on a command line the option loop accepts. *)
Lemma main_accepted argv :
  accepted (scan (tl argv)) = true ->
  exists l tr o,
    run l = (tr, Halt o)
    /\ main argv = (warnings None (positionals (scan (tl argv))) ++ tr, o)
    /\ ctbndl_file l = hd_error (positionals (scan (tl argv)))
    /\ port l = endpoint_port (scan (tl argv))
    /\ host l = endpoint_host (scan (tl argv))
    /\ verbose l = given "--verbose" (scan (tl argv))
    /\ runconfig_file_or_expr_v l = config_options (scan (tl argv))
    /\ request_of l
       = (fun contents calls =>
            setNetwork contents :: calls
              ++ [setConfigVars
                    (comma_join (drop_leading_empty
                                   (config_vars_arguments (scan (tl argv)))));
                  setCommand (if given "--check" (scan (tl argv))
                              then CHECK_COMMAND else RUN_COMMAND);
                  setFlags (requested_flags (scan (tl argv)))])
    /\ output l = output_prefix (scan (tl argv)).
Proof.
  intros H.
  destruct (parse_args_accepted _ H)
    as (l & P & Hf & Hp & Hh & Hv & Hcfg & Hvars & Hck & Hfl & Hout).
  destruct (main_go HEXFLOAT_FLAG OVERRIDE_FLAG AUGMENT_FLAG fileGetContents
              Client_send _ _ _ P) as (tr & o & R & E).
  exists l, tr, o. repeat split; auto.
  unfold request_of. now rewrite Hvars, Hck, Hfl.
Qed.

(** [main] where the option loop stops at a word by itself. *)
Lemma main_stops argv pre w post evs code :
  scan (tl argv) = pre ++ w :: post ->
  accepted pre = true ->
  stops w = Some (evs, code) ->
  main argv = (warnings None (positionals pre) ++ evs, Exit code).
Proof.
  intros Hscan Hacc Hstops. unfold accepted in Hacc.
  apply andb_prop in Hacc as [Hp Hc].
  apply main_halt.
  exact (parse_args_stops _ initial _ _ _ _ _ Hscan Hp Hc Hstops).
Qed.

(** X2: when the first word the option loop does not pass is [-version]
    or [--version], the client writes the version line on the standard
    output, after the warnings for the positional arguments before it,
    and returns 0; the words after it are not looked at. *)
Theorem version_stops_the_client argv pre opt post :
  scan (tl argv) = pre ++ WFlag opt :: post ->
  accepted pre = true ->
  opt = "-version" \/ opt = "--version" ->
  main argv = (warnings None (positionals pre) ++ [Cout version_text], Exit 0).
Proof.
  intros Hscan Hacc Hopt. apply (main_stops _ _ _ _ _ _ Hscan Hacc).
  now destruct Hopt as [-> | ->].
Qed.

(** X3: when the first word the option loop does not pass is [--help]
    or [-h], the client writes the usage and then the options on the
    standard output, after the warnings for the positional arguments
    before it, and returns 0; the words after it are not looked at. *)
Theorem help_stops_the_client argv pre opt post :
  scan (tl argv) = pre ++ WFlag opt :: post ->
  accepted pre = true ->
  opt = "--help" \/ opt = "-h" ->
  main argv
  = (warnings None (positionals pre) ++ [Cout usage_text; Cout options_text],
     Exit 0).
Proof.
  intros Hscan Hacc Hopt. apply (main_stops _ _ _ _ _ _ Hscan Hacc).
  now destruct Hopt as [-> | ->].
Qed.

(** X4: a word that starts with a dash and is none of the options the
    loop knows, met after words the loop accepts, is answered with the
    unknown-option message and the usage on the standard error, and the
    client returns 1.  The [-v] of the usage message is such a word. *)
Theorem unknown_option_is_rejected argv pre opt post :
  scan (tl argv) = pre ++ WFlag opt :: post ->
  accepted pre = true ->
  existsb (String.eqb opt) alone_options = false ->
  main argv
  = (warnings None (positionals pre)
       ++ [Cerr (unknown_option_msg opt); Cerr usage_text],
     Exit 1).
Proof.
  intros Hscan Hacc Hopt. apply (main_stops _ _ _ _ _ _ Hscan Hacc).
  unfold alone_options, existsb in Hopt. unfold stops, passes, existsb.
  repeat (apply orb_false_elim in Hopt as [? Hopt]).
  repeat match goal with H : (opt =? _) = false |- _ => rewrite H; clear H end.
  reflexivity.
Qed.

(** X5: an option that takes a value and stands last on the command
    line, after words the loop accepts, is answered with the diagnostic
    of [checkArgMissing] and the usage on the standard error, and the
    client returns 1. *)
Theorem missing_value_is_rejected argv pre opt post :
  scan (tl argv) = pre ++ WMissing opt :: post ->
  accepted pre = true ->
  main argv
  = (warnings None (positionals pre) ++ [ArgMissing opt; Cerr usage_text],
     Exit 1).
Proof.
  intros Hscan Hacc. now apply (main_stops _ _ _ _ _ _ Hscan Hacc).
Qed.

(** X1: the option loop runs to its end exactly when it passes every
    word of the command line and [--override] and [--augment] are not
    both given. *)
Theorem option_loop_gets_through argv :
  (exists warns l, parse_args initial (tl argv) = (warns, Go l))
  <-> forallb passes (scan (tl argv)) = true
      /\ given "--override" (scan (tl argv)) && given "--augment" (scan (tl argv))
         = false.
Proof.
  split.
  - intros (warns & l & P).
    pose proof (parse_args_exclusive _ _ _ _ P eq_refl) as Hx.
    apply parse_args_go in P.
    destruct P as (_ & _ & _ & Ho & Ha & _ & _ & _ & _ & Hp).
    simpl in Ho, Ha. rewrite Ho, Ha in Hx. now split.
  - intros [Hp Hx].
    destruct (parse_args_passes (tl argv) initial Hp) as [l P].
    + unfold compatible. simpl. now rewrite Hx.
    + eauto.
Qed.

(** X6: an accepted command line without a positional argument is
    answered with the message that the network file is missing and the
    usage, and the client returns 1, whether or not a port is given. *)
Theorem missing_network_file_is_rejected argv :
  accepted (scan (tl argv)) = true ->
  positionals (scan (tl argv)) = [] ->
  main argv = ([Cerr network_missing_msg; Cerr usage_text], Exit 1).
Proof.
  intros Hacc Hpos.
  destruct (main_accepted _ Hacc) as (l & tr & o & R & -> & Hf & _).
  rewrite Hpos in *. rewrite (run_no_file l Hf) in R. now injection R as <- <-.
Qed.

(** X7: an accepted command line with a network file whose last
    [--port] is empty, or which has no [--port], is answered with the
    message that the port is missing and the usage, after the warnings
    for the later positional arguments; the client returns 1 and reads
    no file. *)
Theorem missing_port_is_rejected argv file :
  accepted (scan (tl argv)) = true ->
  hd_error (positionals (scan (tl argv))) = Some file ->
  endpoint_port (scan (tl argv)) = "" ->
  main argv
  = (warnings None (positionals (scan (tl argv)))
       ++ [Cerr port_missing_msg; Cerr usage_text],
     Exit 1).
Proof.
  intros Hacc Hfile Hport.
  destruct (main_accepted _ Hacc) as (l & tr & o & R & -> & Hf & Hp & _).
  rewrite Hfile in Hf. rewrite Hport in Hp.
  rewrite (run_no_port l file Hf Hp) in R. now injection R as <- <-.
Qed.

(** X8: when the network file cannot be read the client returns 1 right
    after the attempt: it writes no message of its own, reads no
    configuration file and sends nothing. *)
Theorem unreadable_network_file_ends_the_run argv file :
  accepted (scan (tl argv)) = true ->
  hd_error (positionals (scan (tl argv))) = Some file ->
  endpoint_port (scan (tl argv)) <> "" ->
  fileGetContents file = None ->
  main argv
  = (warnings None (positionals (scan (tl argv))) ++ [FileGet file], Exit 1).
Proof.
  intros Hacc Hfile Hport Hno.
  destruct (main_accepted _ Hacc) as (l & tr & o & R & -> & Hf & Hp & _).
  rewrite Hfile in Hf. rewrite <- Hp in Hport.
  rewrite (run_no_network l file Hf Hport Hno) in R. now injection R as <- <-.
Qed.

(** X9: when a [--config] file cannot be read the client returns 1 right
    after the attempt: it has read the network file and the
    configuration files up to that one, in the order of the command
    line, it reads none of the later ones and sends nothing. *)
Theorem unreadable_config_file_ends_the_run argv file contents :
  accepted (scan (tl argv)) = true ->
  hd_error (positionals (scan (tl argv))) = Some file ->
  endpoint_port (scan (tl argv)) <> "" ->
  fileGetContents file = Some contents ->
  readable fileGetContents (config_files (scan (tl argv))) = false ->
  main argv
  = (warnings None (positionals (scan (tl argv)))
       ++ FileGet file
       :: map FileGet (files_tried fileGetContents
                         (config_files (scan (tl argv)))),
     Exit 1).
Proof.
  intros Hacc Hfile Hport Hnet Hno.
  destruct (main_accepted _ Hacc)
    as (l & tr & o & R & -> & Hf & Hp & _ & _ & Hcfg & _).
  rewrite Hfile in Hf. rewrite <- Hp in Hport.
  unfold config_files in *. rewrite <- Hcfg in *.
  rewrite (run_no_config l file contents Hf Hport Hnet Hno) in R.
  now injection R as <- <-.
Qed.

(** An accepted command line with a port and readable files is sent. *)
Lemma main_served argv file contents :
  accepted (scan (tl argv)) = true ->
  hd_error (positionals (scan (tl argv))) = Some file ->
  endpoint_port (scan (tl argv)) <> "" ->
  fileGetContents file = Some contents ->
  readable fileGetContents (config_files (scan (tl argv))) = true ->
  exists calls client_data tail o,
    map Some calls
    = map (config_call fileGetContents) (config_options (scan (tl argv)))
    /\ client_data
       = setNetwork contents :: calls
           ++ [setConfigVars
                 (comma_join (drop_leading_empty
                                (config_vars_arguments (scan (tl argv)))));
               setCommand (if given "--check" (scan (tl argv))
                           then CHECK_COMMAND else RUN_COMMAND);
               setFlags (requested_flags (scan (tl argv)))]
    /\ deliver (output_prefix (scan (tl argv)))
         (Client_send (endpoint_host (scan (tl argv)))
            (endpoint_port (scan (tl argv)))
            (given "--verbose" (scan (tl argv))) client_data)
       = (tail, Halt o)
    /\ main argv
       = (warnings None (positionals (scan (tl argv)))
            ++ FileGet file
            :: map FileGet (config_files (scan (tl argv)))
            ++ Send (endpoint_host (scan (tl argv)))
                 (endpoint_port (scan (tl argv)))
                 (given "--verbose" (scan (tl argv))) client_data
            :: tail,
          o).
Proof.
  intros Hacc Hfile Hport Hnet Hyes.
  destruct (main_accepted _ Hacc)
    as (l & tr & o & R & -> & Hf & Hp & Hh & Hv & Hcfg & Hreq & Hout).
  rewrite Hfile in Hf. rewrite <- Hp in Hport.
  unfold config_files in *. rewrite <- Hcfg in *.
  destruct (run_exchange l file contents Hf Hport Hnet Hyes)
    as (calls & tail & o' & Hcalls & D & R').
  rewrite R' in R. injection R as <- <-.
  rewrite Hreq, Hh, Hp, Hv, Hout in D. rewrite Hreq, Hh, Hp, Hv.
  eexists calls, _, tail, o'. repeat split; [exact Hcalls | exact D].
Qed.


(** The five ways [main] ends: with the version, with the help, with
    the usage after a message, at a file it cannot read, or after the
    exchange; before that it has at most warned about positional
    arguments. *)
Lemma main_shape argv :
  exists warns,
    forallb is_warning warns = true
    /\ (main argv = (warns ++ [Cout version_text], Exit 0)
        \/ main argv = (warns ++ [Cout usage_text; Cout options_text], Exit 0)
        \/ (exists e, main argv = (warns ++ [e; Cerr usage_text], Exit 1)
                      /\ is_console e = true /\ is_cout e = false)
        \/ (exists file reads,
              forallb is_file_get reads = true
              /\ main argv = (warns ++ FileGet file :: reads, Exit 1))
        \/ (exists file reads h p v client_data tail o,
              forallb is_file_get reads = true
              /\ deliver (output_prefix (scan (tl argv)))
                   (Client_send h p v client_data) = (tail, Halt o)
              /\ main argv
                 = (warns ++ FileGet file :: reads
                      ++ Send h p v client_data :: tail, o))).
Proof.
  destruct (parse_args initial (tl argv)) as [warns [l|o]] eqn:P.
  - destruct (main_go HEXFLOAT_FLAG OVERRIDE_FLAG AUGMENT_FLAG fileGetContents
                Client_send _ _ _ P) as (tr & o & R & ->).
    apply parse_args_go in P.
    destruct P as (_ & _ & _ & _ & _ & _ & _ & Hout & -> & _).
    simpl in Hout. rewrite fold_last_output in Hout.
    exists (warnings None (positionals (scan (tl argv)))).
    split; [apply warnings_are_warnings|].
    destruct (ctbndl_file l) as [file|] eqn:Hf.
    2: { rewrite (run_no_file l Hf) in R. injection R as <- <-.
         right; right; left. now exists (Cerr network_missing_msg). }
    destruct (string_dec (port l) "") as [Hp|Hp].
    { rewrite (run_no_port l file Hf Hp) in R. injection R as <- <-.
      right; right; left. now exists (Cerr port_missing_msg). }
    destruct (fileGetContents file) as [contents|] eqn:Hnet.
    2: { rewrite (run_no_network l file Hf Hp Hnet) in R. injection R as <- <-.
         right; right; right; left. now exists file, []. }
    destruct (readable fileGetContents (files_of (runconfig_file_or_expr_v l)))
      eqn:Hr.
    + destruct (run_exchange l file contents Hf Hp Hnet Hr)
        as (calls & tail & o' & _ & D & R').
      rewrite R' in R. injection R as <- <-. rewrite Hout in D.
      right; right; right; right.
      eexists file, _, _, _, _, _, tail, o'.
      split; [apply file_gets|]. split; [exact D | reflexivity].
    + rewrite (run_no_config l file contents Hf Hp Hnet Hr) in R.
      injection R as <- <-.
      right; right; right; left. eexists file, _.
      split; [apply file_gets | reflexivity].
  - rewrite (main_halt HEXFLOAT_FLAG OVERRIDE_FLAG AUGMENT_FLAG fileGetContents
               Client_send _ _ _ P).
    destruct (parse_args_halts _ _ _ _ P) as (warns' & Hw & E).
    exists warns'. split; [exact Hw|].
    destruct E as [[-> ->]|[[-> ->]|(e & -> & Hc & Ho & ->)]]; auto.
    right; right; left. now exists e.
Qed.


(** The option loop gets through exactly the accepted command lines. *)
Lemma parse_args_go_accepted args warns l :
  parse_args initial args = (warns, Go l) -> accepted (scan args) = true.
Proof.
  intros P. pose proof (parse_args_exclusive _ _ _ _ P eq_refl) as Hx.
  apply parse_args_go in P.
  destruct P as (_ & _ & _ & Ho & Ha & _ & _ & _ & _ & Hp).
  simpl in Ho, Ha. rewrite Ho, Ha in Hx.
  unfold accepted, compatible. simpl. now rewrite Hp, Hx.
Qed.

(** A run with an exchange in it, told from its command line. *)
Lemma main_reaches argv h p v client_data :
  In (Send h p v client_data) (fst (main argv)) ->
  exists file contents,
    accepted (scan (tl argv)) = true
    /\ hd_error (positionals (scan (tl argv))) = Some file
    /\ endpoint_port (scan (tl argv)) <> ""
    /\ fileGetContents file = Some contents
    /\ readable fileGetContents (config_files (scan (tl argv))) = true.
Proof.
  intros Hin.
  assert (Hacc : accepted (scan (tl argv)) = true).
  { destruct (parse_args initial (tl argv)) as [warns [l|o]] eqn:P;
      [exact (parse_args_go_accepted _ _ _ P)|].
    rewrite (main_halt HEXFLOAT_FLAG OVERRIDE_FLAG AUGMENT_FLAG fileGetContents
               Client_send _ _ _ P) in Hin.
    apply (forallb_In _ _ _ (proj1 (parse_args_console _ _ _ _ P))) in Hin.
    discriminate. }
  destruct (main_accepted _ Hacc)
    as (l & tr & o & R & E & Hf & Hp & _ & _ & Hcfg & _).
  rewrite E in Hin. cbn [fst] in Hin. apply in_app_or in Hin as [Hin|Hin];
    [now apply before_no_send in Hin; [|apply warnings_before]|].
  unfold config_files. rewrite <- Hf, <- Hp, <- Hcfg.
  destruct (ctbndl_file l) as [file|] eqn:Hfile.
  2: { rewrite (run_no_file l Hfile) in R. injection R as <- _.
       now apply before_no_send in Hin. }
  destruct (string_dec (port l) "") as [Hport|Hport].
  { rewrite (run_no_port l file Hfile Hport) in R. injection R as <- _.
    now apply before_no_send in Hin. }
  destruct (fileGetContents file) as [contents|] eqn:Hnet.
  2: { rewrite (run_no_network l file Hfile Hport Hnet) in R.
       injection R as <- _. now apply before_no_send in Hin. }
  destruct (readable fileGetContents (files_of (runconfig_file_or_expr_v l)))
    eqn:Hr.
  - exists file, contents. now rewrite Hnet.
  - rewrite (run_no_config l file contents Hfile Hport Hnet Hr) in R.
    injection R as <- _.
    apply before_no_send in Hin; [contradiction|].
    cbn [forallb]. now rewrite file_gets_before.
Qed.

(** The exchange in a run is the one its command line describes. *)
Lemma main_sent_is argv h p v client_data :
  In (Send h p v client_data) (fst (main argv)) ->
  exists file contents calls tail o,
    hd_error (positionals (scan (tl argv))) = Some file
    /\ fileGetContents file = Some contents
    /\ map Some calls
       = map (config_call fileGetContents) (config_options (scan (tl argv)))
    /\ h = endpoint_host (scan (tl argv))
    /\ p = endpoint_port (scan (tl argv))
    /\ p <> ""
    /\ v = given "--verbose" (scan (tl argv))
    /\ client_data
       = setNetwork contents :: calls
           ++ [setConfigVars
                 (comma_join (drop_leading_empty
                                (config_vars_arguments (scan (tl argv)))));
               setCommand (if given "--check" (scan (tl argv))
                           then CHECK_COMMAND else RUN_COMMAND);
               setFlags (requested_flags (scan (tl argv)))]
    /\ forallb is_aftermath tail = true
    /\ main argv
       = (warnings None (positionals (scan (tl argv)))
            ++ FileGet file
            :: map FileGet (config_files (scan (tl argv)))
            ++ Send h p v client_data :: tail,
          o).
Proof.
  intros Hin.
  destruct (main_reaches _ _ _ _ _ Hin)
    as (file & contents & Hacc & Hfile & Hport & Hnet & Hr).
  destruct (main_served _ _ _ Hacc Hfile Hport Hnet Hr)
    as (calls & cd & tail & o & Hcalls & Hcd & D & E).
  destruct (deliver_aftermath _ _ _ _ D) as [Htail _].
  rewrite E in Hin. cbn [fst] in Hin.
  apply in_app_or in Hin as [Hin|Hin];
    [now apply before_no_send in Hin; [|apply warnings_before]|].
  destruct Hin as [Hin|Hin]; [discriminate|].
  apply in_app_or in Hin as [Hin|Hin];
    [now apply before_no_send in Hin; [|apply file_gets_before]|].
  destruct Hin as [Hin|Hin];
    [|apply (forallb_In _ _ _ Htail) in Hin; discriminate].
  injection Hin as <- <- <- <-.
  exists file, contents, calls, tail, o. rewrite <- Hcd.
  repeat split; auto.
Qed.

(** X10: the client reaches the server exactly when the option loop
    accepts the command line, the port is not empty, there is a
    positional argument, and the network file and every [--config]
    file can be read. *)
Theorem server_is_reached_iff argv :
  (exists h p v client_data, In (Send h p v client_data) (fst (main argv)))
  <-> accepted (scan (tl argv)) = true
      /\ endpoint_port (scan (tl argv)) <> ""
      /\ exists file,
           hd_error (positionals (scan (tl argv))) = Some file
           /\ readable fileGetContents (file :: config_files (scan (tl argv)))
              = true.
Proof.
  split.
  - intros (h & p & v & client_data & Hin).
    destruct (main_reaches _ _ _ _ _ Hin)
      as (file & contents & Hacc & Hfile & Hport & Hnet & Hr).
    repeat split; auto. exists file. split; [exact Hfile|].
    unfold readable in *. cbn [forallb]. now rewrite Hnet, Hr.
  - intros (Hacc & Hport & file & Hfile & Hr).
    unfold readable in Hr. cbn [forallb] in Hr. apply andb_prop in Hr as [Hnet Hr].
    destruct (fileGetContents file) as [contents|] eqn:Hc; [|discriminate].
    destruct (main_served _ _ _ Hacc Hfile Hport Hc Hr)
      as (calls & cd & tail & o & _ & _ & _ & ->).
    eexists _, _, _, cd. cbn [fst]. apply in_or_app. right. right.
    apply in_or_app. right. left. reflexivity.
Qed.

(** X11: the exchange goes to the host of the last [--host], the empty
    string without one, and to the port of the last [--port], which is
    not empty; it is verbose exactly when [--verbose] is given. *)
Theorem endpoint_is_the_last_host_and_port argv h p v client_data :
  In (Send h p v client_data) (fst (main argv)) ->
  h = endpoint_host (scan (tl argv))
  /\ p = endpoint_port (scan (tl argv))
  /\ p <> ""
  /\ v = given "--verbose" (scan (tl argv)).
Proof.
  intros Hin.
  destruct (main_sent_is _ _ _ _ _ Hin)
    as (file & contents & calls & tail & o & _ & _ & _ & Hh & Hp & Hne & Hv & _).
  auto.
Qed.

(** X12: the request sets its command once: to CHECK when [--check] is
    given, to RUN otherwise. *)
Theorem command_follows_check argv h p v client_data :
  In (Send h p v client_data) (fst (main argv)) ->
  filter is_set_command client_data
  = [setCommand (if given "--check" (scan (tl argv))
                 then CHECK_COMMAND else RUN_COMMAND)].
Proof.
  intros Hin.
  destruct (main_sent_is _ _ _ _ _ Hin)
    as (file & contents & calls & tail & o & _ & _ & Hcalls & _ & _ & _ & _
        & -> & _).
  cbn [filter is_set_command]. rewrite filter_app.
  now rewrite (config_calls_no_command _ _ _ Hcalls).
Qed.


(** X14: every run is made of console messages, then files read, then
    at most one exchange, which only files written and messages on the
    standard error can follow. *)
Theorem exchange_is_single_and_ordered argv :
  exists msgs reads after,
    fst (main argv) = msgs ++ reads ++ after
    /\ forallb is_console msgs = true
    /\ forallb is_file_get reads = true
    /\ (after = []
        \/ exists h p v client_data tail,
             after = Send h p v client_data :: tail
             /\ forallb is_aftermath tail = true).
Proof.
  destruct (main_shape argv) as (warns & Hw & H).
  apply (forallb_weaken _ _ _ is_warning_console) in Hw.
  destruct H as [->|[->|[(e & -> & He & _)|[(file & reads & Hr & ->)
    |(file & reads & h & p & v & cd & tail & o & Hr & D & ->)]]]]; cbn [fst].
  - exists (warns ++ [Cout version_text]), [], [].
    rewrite !app_nil_r, forallb_app, Hw. auto.
  - exists (warns ++ [Cout usage_text; Cout options_text]), [], [].
    rewrite !app_nil_r, forallb_app, Hw. auto.
  - exists (warns ++ [e; Cerr usage_text]), [], [].
    rewrite !app_nil_r, forallb_app, Hw. cbn [forallb]. rewrite He. auto.
  - exists warns, (FileGet file :: reads), [].
    rewrite app_nil_r. cbn [forallb is_file_get]. auto.
  - exists warns, (FileGet file :: reads), (Send h p v cd :: tail).
    destruct (deliver_aftermath _ _ _ _ D) as [Htail _].
    rewrite <- app_comm_cons. repeat split; auto.
    right. now exists h, p, v, cd, tail.
Qed.

(** X15: the standard output is written only for the version and the
    help: a run with text on it returns 0, has done nothing but write
    on the console, and the text is the version line, the usage or the
    options. *)
Theorem standard_output_is_for_version_and_help argv text :
  In (Cout text) (fst (main argv)) ->
  snd (main argv) = Exit 0
  /\ forallb is_console (fst (main argv)) = true
  /\ (text = version_text \/ text = usage_text \/ text = options_text).
Proof.
  destruct (main_shape argv) as (warns & Hw & H).
  assert (Hno : ~ In (Cout text) warns).
  { intros Hin. apply (forallb_In _ _ _ Hw) in Hin. discriminate. }
  apply (forallb_weaken _ _ _ is_warning_console) in Hw.
  destruct H as [->|[->|[(e & -> & He & Hc)|[(file & reads & Hr & ->)
    |(file & reads & h & p & v & cd & tail & o & Hr & D & ->)]]]]; cbn [fst snd];
    intros Hin; apply in_app_or in Hin as [Hin|Hin]; try contradiction.
  - destruct Hin as [Hin|[]]. injection Hin as <-.
    rewrite forallb_app, Hw. auto.
  - rewrite forallb_app, Hw.
    destruct Hin as [Hin|[Hin|[]]]; injection Hin as <-; auto.
  - destruct Hin as [Hin|[Hin|[]]]; [subst e|]; discriminate.
  - destruct Hin as [Hin|Hin]; [discriminate|].
    apply (forallb_In _ _ _ Hr) in Hin. discriminate.
  - destruct (deliver_aftermath _ _ _ _ D) as [Htail _].
    destruct Hin as [Hin|Hin]; [discriminate|].
    apply in_app_or in Hin as [Hin|[Hin|Hin]];
      [apply (forallb_In _ _ _ Hr) in Hin | | apply (forallb_In _ _ _ Htail) in Hin];
      discriminate.
Qed.


(** What follows the exchange does not end like a rejection. *)
Lemma deliver_no_usage output server_data tail r :
  deliver output server_data = (tail, r) ->
  forallb (fun e => negb (is_usage e)) tail = true.
Proof.
  assert (Hv : forallb (fun e => negb (is_usage e)) (fst (verdict server_data))
               = true)
    by (unfold verdict; now destruct (getStatus server_data =? 0)%Z).
  destruct output as [prefix|].
  - rewrite deliver_some. intros H. injection H as <- _.
    rewrite forallb_app, Hv, andb_true_r. unfold file_puts.
    induction (stored prefix server_data); simpl; auto.
  - rewrite deliver_none. destruct (blobs server_data); intros H;
      injection H as <- _; [exact Hv | reflexivity].
Qed.

(** The code after the exchange, when there is one. *)
Lemma deliver_code output server_data tail code :
  deliver output server_data = (tail, Halt (Exit code)) ->
  code = (if (getStatus server_data =? 0)%Z then 0 else 1)%Z.
Proof.
  destruct output as [prefix|].
  - rewrite deliver_some, verdict_code. intros H. now injection H as _ <-.
  - rewrite deliver_none, verdict_code.
    destruct (blobs server_data); intros H; [now injection H as _ <-|discriminate].
Qed.

(** X16: the client returns 0 or 1, and 0 only after the version, after
    the help, or after an exchange whose reply has status 0. *)
Theorem client_returns_zero_or_one argv code :
  snd (main argv) = Exit code ->
  code = 1%Z
  \/ (code = 0%Z
      /\ ((exists warns, fst (main argv) = warns ++ [Cout version_text])
          \/ (exists warns,
                fst (main argv) = warns ++ [Cout usage_text; Cout options_text])
          \/ (exists h p v client_data,
                In (Send h p v client_data) (fst (main argv))
                /\ getStatus (Client_send h p v client_data) = 0%Z))).
Proof.
  destruct (main_shape argv) as (warns & Hw & H).
  destruct H as [->|[->|[(e & -> & He & _)|[(file & reads & Hr & ->)
    |(file & reads & h & p & v & cd & tail & o & Hr & D & ->)]]]]; cbn [fst snd];
    intros Hcode; try (injection Hcode as <-; eauto 6; fail).
  subst o. apply deliver_code in D.
  destruct (Z.eqb_spec (getStatus (Client_send h p v cd)) 0) as [Hs|Hs];
    subst code; [right|now left].
  split; [reflexivity|]. right; right. exists h, p, v, cd. split; [|exact Hs].
  apply in_or_app. right. right. apply in_or_app. right. now left.
Qed.

(** X17: the usage on the standard error is the last thing a run writes
    exactly when the client returns 1 without having read a file or
    reached the server. *)
Theorem usage_ends_every_rejection argv :
  (exists tr, fst (main argv) = tr ++ [Cerr usage_text])
  <-> snd (main argv) = Exit 1 /\ forallb is_console (fst (main argv)) = true.
Proof.
  destruct (main_shape argv) as (warns & Hw & H).
  pose proof (forallb_weaken _ _ _ is_warning_console Hw) as Hc.
  destruct H as [->|[->|[(e & -> & He & _)|[(file & reads & Hr & ->)
    |(file & reads & h & p & v & cd & tail & o & Hr & D & ->)]]]]; cbn [fst snd];
    (split; [intros [tr E] | intros [Ho Hall]]); try discriminate.
  - apply app_inj_tail in E as [_ E]. discriminate.
  - change (warns ++ [Cout usage_text; Cout options_text])
      with (warns ++ [Cout usage_text] ++ [Cout options_text]) in E.
    rewrite app_assoc in E. apply app_inj_tail in E as [_ E]. discriminate.
  - split; [reflexivity|]. rewrite forallb_app, Hc. cbn [forallb]. now rewrite He.
  - exists (warns ++ [e]). now rewrite <- app_assoc.
  - exfalso. apply (f_equal (fun l => is_file_get (last l (Cerr usage_text)))) in E.
    rewrite last_last, last_app_cons in E.
    rewrite (last_forallb is_file_get) in E; [discriminate|].
    cbn [forallb is_file_get]. exact Hr.
  - exfalso. rewrite forallb_app in Hall. cbn [forallb is_console] in Hall.
    now rewrite andb_false_r in Hall.
  - exfalso.
    apply (f_equal (fun l => negb (is_usage (last l (Cerr usage_text))))) in E.
    rewrite last_last, app_comm_cons, app_assoc, last_app_cons in E.
    rewrite (last_forallb (fun e => negb (is_usage e))) in E; [discriminate|].
    cbn [forallb is_usage negb andb]. exact (deliver_no_usage _ _ _ _ D).
  - exfalso. rewrite forallb_app in Hall. cbn [forallb is_console] in Hall.
    rewrite forallb_app in Hall. cbn [forallb is_console] in Hall.
    now rewrite !andb_false_r in Hall.
Qed.

(** X18: a run writes at most five files, and no two of them have the
    same name. *)
Theorem written_files_are_distinct argv :
  NoDup (map fst (files_written (fst (main argv))))
  /\ (length (files_written (fst (main argv))) <= 5)%nat.
Proof.
  assert (Hnone : forall tr, files_written tr = [] ->
            NoDup (map fst (files_written tr))
            /\ (length (files_written tr) <= 5)%nat).
  { intros tr ->. split; [constructor | simpl; lia]. }
  assert (Hwarns : forall warns, forallb is_warning warns = true ->
            files_written warns = []).
  { intros warns Hw. apply files_written_none.
    apply (forallb_weaken is_warning); [now intros []|exact Hw]. }
  destruct (main_shape argv) as (warns & Hw & H).
  destruct H as [->|[->|[(e & -> & He & _)|[(file & reads & Hr & ->)
    |(file & reads & h & p & v & cd & tail & o & Hr & D & ->)]]]]; cbn [fst].
  - apply Hnone. now rewrite files_written_app, Hwarns.
  - apply Hnone. now rewrite files_written_app, Hwarns.
  - apply Hnone. rewrite files_written_app, Hwarns by exact Hw.
    now destruct e.
  - apply Hnone. rewrite files_written_app, Hwarns by exact Hw.
    cbn [app files_written]. now apply files_written_reads.
  - rewrite files_written_app, Hwarns by exact Hw.
    cbn [app files_written]. rewrite files_written_app, files_written_reads by exact Hr.
    cbn [app files_written].
    destruct (output_prefix (scan (tl argv))) as [prefix|].
    + rewrite deliver_some in D. injection D as <- _.
      rewrite files_written_app, files_written_puts, files_written_verdict,
        app_nil_r.
      apply stored_distinct.
    + rewrite deliver_none in D. apply Hnone.
      destruct (blobs (Client_send h p v cd)); injection D as <- _;
        [apply files_written_verdict | reflexivity].
Qed.

End More.

(** ** The rest of the client in the small world *)

Lemma version_stops_the_client_witness :
  scan (tl argv_version)
  = [WPos "net.bnd"; WPos "extra.bnd"]
      ++ WFlag "--version" :: [WMissing "--port"]
  /\ accepted [WPos "net.bnd"; WPos "extra.bnd"] = true
  /\ main 1 2 4 example_files (always reply_ok) argv_version
     = ([Cerr (already_set_msg "net.bnd" "extra.bnd"); Cout version_text],
        Exit 0).
Proof.
  split; [reflexivity|]. split; [reflexivity|].
  exact (version_stops_the_client 1 2 4 example_files (always reply_ok)
           argv_version [WPos "net.bnd"; WPos "extra.bnd"] "--version"
           [WMissing "--port"] eq_refl eq_refl (or_intror eq_refl)).
Defined.

Lemma help_stops_the_client_witness :
  scan (tl argv_help) = [WFlag "--augment"] ++ WFlag "-h" :: [WFlag "--override"]
  /\ accepted [WFlag "--augment"] = true
  /\ main 1 2 4 example_files (always reply_ok) argv_help
     = ([Cout usage_text; Cout options_text], Exit 0).
Proof.
  split; [reflexivity|]. split; [reflexivity|].
  exact (help_stops_the_client 1 2 4 example_files (always reply_ok)
           argv_help [WFlag "--augment"] "-h" [WFlag "--override"]
           eq_refl eq_refl (or_intror eq_refl)).
Defined.

Lemma unknown_option_is_rejected_witness :
  scan (tl argv_short_vars)
  = [WOpt "--port" "4291"] ++ WFlag "-v" :: [WPos "k=1"; WPos "net.bnd"]
  /\ accepted [WOpt "--port" "4291"] = true
  /\ existsb (String.eqb "-v") alone_options = false
  /\ main 1 2 4 example_files (always reply_ok) argv_short_vars
     = ([Cerr (unknown_option_msg "-v"); Cerr usage_text], Exit 1).
Proof.
  split; [reflexivity|]. split; [reflexivity|]. split; [reflexivity|].
  exact (unknown_option_is_rejected 1 2 4 example_files (always reply_ok)
           argv_short_vars [WOpt "--port" "4291"] "-v"
           [WPos "k=1"; WPos "net.bnd"] eq_refl eq_refl eq_refl).
Defined.

Lemma missing_value_is_rejected_witness :
  scan (tl argv_port_last)
  = [WPos "net.bnd"; WPos "extra.bnd"] ++ WMissing "--port" :: []
  /\ accepted [WPos "net.bnd"; WPos "extra.bnd"] = true
  /\ main 1 2 4 example_files (always reply_ok) argv_port_last
     = ([Cerr (already_set_msg "net.bnd" "extra.bnd");
         ArgMissing "--port"; Cerr usage_text],
        Exit 1).
Proof.
  split; [reflexivity|]. split; [reflexivity|].
  exact (missing_value_is_rejected 1 2 4 example_files (always reply_ok)
           argv_port_last [WPos "net.bnd"; WPos "extra.bnd"] "--port" []
           eq_refl eq_refl).
Defined.

Lemma missing_network_file_is_rejected_witness :
  accepted (scan (tl argv_no_network)) = true
  /\ positionals (scan (tl argv_no_network)) = []
  /\ main 1 2 4 example_files (always reply_ok) argv_no_network
     = ([Cerr network_missing_msg; Cerr usage_text], Exit 1).
Proof.
  split; [reflexivity|]. split; [reflexivity|].
  exact (missing_network_file_is_rejected 1 2 4 example_files (always reply_ok)
           argv_no_network eq_refl eq_refl).
Defined.

Lemma missing_port_is_rejected_witness :
  accepted (scan (tl argv_empty_port)) = true
  /\ hd_error (positionals (scan (tl argv_empty_port))) = Some "net.bnd"
  /\ endpoint_port (scan (tl argv_empty_port)) = ""
  /\ main 1 2 4 example_files (always reply_ok) argv_empty_port
     = ([Cerr port_missing_msg; Cerr usage_text], Exit 1).
Proof.
  split; [reflexivity|]. split; [reflexivity|]. split; [reflexivity|].
  exact (missing_port_is_rejected 1 2 4 example_files (always reply_ok)
           argv_empty_port "net.bnd" eq_refl eq_refl eq_refl).
Defined.

Lemma unreadable_network_file_ends_the_run_witness :
  accepted (scan (tl argv_no_such_network)) = true
  /\ hd_error (positionals (scan (tl argv_no_such_network))) = Some "none.bnd"
  /\ endpoint_port (scan (tl argv_no_such_network)) <> ""
  /\ example_files "none.bnd" = None
  /\ main 1 2 4 example_files (always reply_ok) argv_no_such_network
     = ([FileGet "none.bnd"], Exit 1).
Proof.
  assert (Hp : endpoint_port (scan (tl argv_no_such_network)) <> "")
    by (vm_compute; discriminate).
  split; [reflexivity|]. split; [reflexivity|]. split; [exact Hp|].
  split; [reflexivity|].
  exact (unreadable_network_file_ends_the_run 1 2 4 example_files
           (always reply_ok) argv_no_such_network "none.bnd"
           eq_refl eq_refl Hp eq_refl).
Defined.

Lemma unreadable_config_file_ends_the_run_witness :
  accepted (scan (tl argv_no_such_config)) = true
  /\ hd_error (positionals (scan (tl argv_no_such_config))) = Some "net.bnd"
  /\ endpoint_port (scan (tl argv_no_such_config)) <> ""
  /\ example_files "net.bnd" = Some "A -> B;"
  /\ readable example_files (config_files (scan (tl argv_no_such_config)))
     = false
  /\ main 1 2 4 example_files (always reply_ok) argv_no_such_config
     = ([FileGet "net.bnd"; FileGet "run.cfg"; FileGet "none.cfg"], Exit 1).
Proof.
  assert (Hp : endpoint_port (scan (tl argv_no_such_config)) <> "")
    by (vm_compute; discriminate).
  split; [reflexivity|]. split; [reflexivity|]. split; [exact Hp|].
  split; [reflexivity|]. split; [reflexivity|].
  exact (unreadable_config_file_ends_the_run 1 2 4 example_files
           (always reply_ok) argv_no_such_config "net.bnd" "A -> B;"
           eq_refl eq_refl Hp eq_refl eq_refl).
Defined.

Lemma endpoint_is_the_last_host_and_port_witness :
  In (Send "server" "4291" true request_check)
     (fst (main 1 2 4 example_files (always reply_ok) argv_check))
  /\ host_arguments (scan (tl argv_check)) = ["first"; "server"]
  /\ port_arguments (scan (tl argv_check)) = ["1"; "4291"]
  /\ "server" = endpoint_host (scan (tl argv_check))
  /\ "4291" = endpoint_port (scan (tl argv_check))
  /\ "4291" <> ""
  /\ true = given "--verbose" (scan (tl argv_check)).
Proof.
  assert (Hin : In (Send "server" "4291" true request_check)
                  (fst (main 1 2 4 example_files (always reply_ok) argv_check)))
    by in_trace.
  split; [exact Hin|]. split; [reflexivity|]. split; [reflexivity|].
  exact (endpoint_is_the_last_host_and_port 1 2 4 example_files
           (always reply_ok) argv_check "server" "4291" true request_check Hin).
Defined.

Lemma command_follows_check_witness :
  In (Send "server" "4291" true request_check)
     (fst (main 1 2 4 example_files (always reply_ok) argv_check))
  /\ filter is_set_command request_check = [setCommand CHECK_COMMAND].
Proof.
  assert (Hin : In (Send "server" "4291" true request_check)
                  (fst (main 1 2 4 example_files (always reply_ok) argv_check)))
    by in_trace.
  split; [exact Hin|].
  exact (command_follows_check 1 2 4 example_files (always reply_ok)
           argv_check "server" "4291" true request_check Hin).
Defined.


Lemma standard_output_is_for_version_and_help_witness :
  In (Cout options_text)
     (fst (main 1 2 4 example_files (always reply_ok) argv_help))
  /\ snd (main 1 2 4 example_files (always reply_ok) argv_help) = Exit 0
  /\ forallb is_console
       (fst (main 1 2 4 example_files (always reply_ok) argv_help)) = true
  /\ (options_text = version_text \/ options_text = usage_text
      \/ options_text = options_text).
Proof.
  assert (Hin : In (Cout options_text)
                  (fst (main 1 2 4 example_files (always reply_ok) argv_help)))
    by (right; left; reflexivity).
  split; [exact Hin|].
  exact (standard_output_is_for_version_and_help 1 2 4 example_files
           (always reply_ok) argv_help options_text Hin).
Defined.

Lemma client_returns_zero_or_one_witness :
  snd (main 1 2 4 example_files (always reply_ok) argv_check) = Exit 0
  /\ (0%Z = 1%Z
      \/ (0%Z = 0%Z
          /\ ((exists warns,
                 fst (main 1 2 4 example_files (always reply_ok) argv_check)
                 = warns ++ [Cout version_text])
              \/ (exists warns,
                    fst (main 1 2 4 example_files (always reply_ok) argv_check)
                    = warns ++ [Cout usage_text; Cout options_text])
              \/ (exists h p v client_data,
                    In (Send h p v client_data)
                       (fst (main 1 2 4 example_files (always reply_ok)
                               argv_check))
                    /\ getStatus (always reply_ok h p v client_data) = 0%Z)))).
Proof.
  split; [reflexivity|].
  exact (client_returns_zero_or_one 1 2 4 example_files (always reply_ok)
           argv_check 0%Z eq_refl).
Defined.
